(** * Circle packing (circlepack.py): a shallow embedding and its properties

    The program covers a canvas with non-overlapping circles in two phases.
    Everything it computes on is a Python integer, so coordinates, radii and
    counters are [Z].  The places where the source leaves the integers are
    modelled as follows:

    - [target_circles] (lines 79-81) is computed in binary64, with the
      IEEE-754 operations of the Standard Library's [SpecFloat]: the integer
      conversions, the division, the products and [int()] round, overflow
      and raise as CPython's do.  The one assumption is on the C library:
      [x ** 2] is the correctly rounded square, which it is whenever the
      square is representable (for [|min_radius + max_radius| < 2^26]);
    - [math.sqrt] in [circles_overlap] is the exact real square root; the
      comparison [sqrt d2 < s] on integers [d2], [s] is decided on [Z] and
      proved equivalent to the real-number comparison ([circles_overlap_sqrt]);
    - the product of [darken_color] is a binary64 product, truncated by
      [int()];
    - the pixel mean of [get_avg_color] is the exact mean truncated to an
      integer, which on byte-valued channels is the value of the float mean;
    - the average radius of the statistics, which is only printed, is kept
      as the exact quotient;
    - the global random source is an explicit stream of raw draws.

    Console output is left out; the canvas is the list of ellipses drawn.
    Opening the image, drawing and saving are taken to succeed. *)

From Stdlib Require Import String ZArith QArith Reals Machin Lra Lia Bool List.
From Stdlib Require Import SpecFloat.
Import ListNotations.

#[local] Open Scope Z_scope.

(** ** Python runtime pieces used by the program *)

Module Py.

(** Exceptions the program can raise. *)
Inductive exn : Type :=
| ValueError (msg : string)
| IndexError (msg : string)
| ZeroDivisionError (msg : string)
| OverflowError (msg : string).

(** Outcome of running a piece of code: a value, a raised exception, or a
    loop that used up the iteration budget given to the model. *)
Inductive result (A : Type) : Type :=
| Ok (a : A)
| Raised (e : exn)
| OutOfFuel.
Arguments Ok {A} a.
Arguments Raised {A} e.
Arguments OutOfFuel {A}.

(** The random source: an infinite stream of raw draws and a read position. *)
Record RandomState : Type := mkRandom { raw : nat -> Z; pos : nat }.

(** Code that may consume randomness and may raise. *)
Definition M (A : Type) : Type := RandomState -> result (A * RandomState).

Definition ret {A} (a : A) : M A := fun g => Ok (a, g).

Definition raise {A} (e : exn) : M A := fun _ => Raised e.

Definition bind {A B} (m : M A) (k : A -> M B) : M B :=
  fun g =>
    match m g with
    | Ok (a, g') => k a g'
    | Raised e => Raised e
    | OutOfFuel => OutOfFuel
    end.

Definition next_raw : M Z :=
  fun g => Ok (raw g (pos g), mkRandom (raw g) (S (pos g))).

(** [random.randint(a, b)]: an integer in [[a, b]]; an empty range raises
    before anything is drawn. *)
Definition randint (a b : Z) : M Z :=
  if b <? a
  then raise (ValueError "empty range for randrange()"%string)
  else bind next_raw (fun v => ret (a + v mod (b - a + 1))).

(** [bisect.bisect(cum, t)]: index of the first entry greater than [t]. *)
Fixpoint bisect (cum : list Z) (t : Z) : nat :=
  match cum with
  | [] => O
  | c :: rest => if t <? c then O else S (bisect rest t)
  end.

Fixpoint accumulate (acc : Z) (ws : list Z) : list Z :=
  match ws with
  | [] => []
  | w :: rest => (acc + w) :: accumulate (acc + w) rest
  end.

(** [random.choices(population, weights=weights)[0]].  Weights are kept in
    hundredths; the draw [t] stands for [random() * total]; the bisection
    runs over all cumulative weights but the last, as in CPython. *)
Definition choices {A} (population : list A) (weights : list Z) : M A :=
  if negb (Nat.eqb (List.length weights) (List.length population))
  then raise (ValueError "The number of weights does not match the population"%string)
  else
    let cum_weights := accumulate 0 weights in
    let total := last cum_weights 0 in
    if total <=? 0
    then raise (ValueError "Total of weights must be greater than zero"%string)
    else
      bind next_raw (fun v =>
        match nth_error population (bisect (removelast cum_weights) (v mod total)) with
        | Some a => ret a
        | None => raise (IndexError "list index out of range"%string)
        end).

(** Index normalisation of a slice bound against a length [n]. *)
Definition slice_index (n i : Z) : Z :=
  if i <? 0 then Z.max 0 (i + n) else Z.min i n.

(** [l[a:b]]. *)
Definition slice {A} (l : list A) (a b : Z) : list A :=
  let n := Z.of_nat (List.length l) in
  let lo := slice_index n a in
  let hi := slice_index n b in
  firstn (Z.to_nat (hi - lo)) (skipn (Z.to_nat lo) l).

(** [min(l)] and [max(l)] on a list of integers. *)
Definition min (l : list Z) : result Z :=
  match l with
  | [] => Raised (ValueError "min() arg is an empty sequence"%string)
  | a :: rest => Ok (fold_left Z.min rest a)
  end.

Definition max (l : list Z) : result Z :=
  match l with
  | [] => Raised (ValueError "max() arg is an empty sequence"%string)
  | a :: rest => Ok (fold_left Z.max rest a)
  end.

Definition sum (l : list Z) : Z := fold_left Z.add l 0.

(** [a / b] on integers: true division, here an exact rational. *)
Definition truediv (a b : Z) : result Q :=
  if b =? 0
  then Raised (ZeroDivisionError "division by zero"%string)
  else Ok (inject_Z a / inject_Z b)%Q.

(** Sequencing of computations that may raise but draw nothing. *)
Definition and_then {A B} (r : result A) (k : A -> result B) : result B :=
  match r with
  | Ok a => k a
  | Raised e => Raised e
  | OutOfFuel => OutOfFuel
  end.

(** *** Floats

    A Python float is an IEEE-754 binary64 number: 53 bits of precision,
    infinities at exponent 1024. *)
Definition float : Type := spec_float.

Definition prec : Z := 53.
Definition emax : Z := 1024.

Definition fmul (x y : float) : float := SFmul prec emax x y.
Definition fdiv (x y : float) : float := SFdiv prec emax x y.
Definition fsub (x y : float) : float := SFsub prec emax x y.

(** The float nearest to [m * 2 ^ e], ties to even. *)
Definition dyadic (m e : Z) : float := binary_normalize prec emax m e false.

Definition is_infinite (x : float) : bool :=
  match x with S754_infinity _ => true | _ => false end.

Definition is_zero (x : float) : bool :=
  match x with S754_zero _ => true | _ => false end.

(** [math.pi]. *)
Definition pi : float := S754_finite false 7074237752028440 (-51).

(** The integer 1 as a float, and the literals [0.4] and [0.3]
    ([0x1.999999999999ap-2] and [0x1.3333333333333p-2]). *)
Definition one : float := S754_finite false 4503599627370496 (-52).
Definition float_0_4 : float := S754_finite false 7205759403792794 (-54).
Definition float_0_3 : float := S754_finite false 5404319552844595 (-54).

(** An integer operand of a float operation is converted first. *)
Definition float_of_int (n : Z) : result float :=
  let x := dyadic n 0 in
  if is_infinite x
  then Raised (OverflowError "int too large to convert to float"%string)
  else Ok x.

(** [n / 2] on an integer [n]: the correctly rounded quotient. *)
Definition half (n : Z) : result float :=
  let x := dyadic n (-1) in
  if is_infinite x
  then Raised (OverflowError "integer division result too large for a float"%string)
  else Ok x.

(** [x ** 2] on a float: a finite base whose square overflows raises. *)
Definition square (x : float) : result float :=
  let y := fmul x x in
  if is_infinite y && negb (is_infinite x)
  then Raised (OverflowError "(34, 'Numerical result out of range')"%string)
  else Ok y.

(** [a / b] on floats. *)
Definition float_truediv (a b : float) : result float :=
  if is_zero b
  then Raised (ZeroDivisionError "float division by zero"%string)
  else Ok (fdiv a b).

(** [int(x)] on a float: truncation toward zero. *)
Definition int (x : float) : result Z :=
  match x with
  | S754_nan => Raised (ValueError "cannot convert float NaN to integer"%string)
  | S754_infinity _ =>
      Raised (OverflowError "cannot convert float infinity to integer"%string)
  | S754_zero _ => Ok 0
  | S754_finite s m e => Ok (cond_Zopp s (Z.shiftl (Zpos m) e))
  end.

End Py.

Import Py.

Notation "x <- m ;; k" := (bind m (fun x => k))
  (at level 61, m at next level, right associativity).

(** ** Data *)

(** A placed circle, stored as the tuple [(x, y, r)]. *)
Definition circle : Type := Z * Z * Z.

Definition color : Type := Z * Z * Z.

(** One call of [draw.ellipse]. *)
Record ellipse : Type := mkEllipse {
  bbox : Z * Z * Z * Z;
  fill : color;
  outline : color;
  outline_width : Z
}.

(** The mutable variables of the placement loops. *)
Record state : Type := mkState {
  placed_circles : list circle;
  canvas : list ellipse;
  circles_placed : Z;
  total_attempts : Z
}.

(** The dictionary [size_stats]. *)
Record stats : Type := mkStats {
  stat_min : Z;
  stat_max : Z;
  stat_avg : Q;
  total_circles : Z
}.

(** What a completed call leaves behind: the value it returns, and the
    effects (the saved canvas, the printed statistics, the final list). *)
Record outcome : Type := mkOutcome {
  returned : string;
  saved_to : string;
  final : state;
  size_stats : stats
}.

(** ** The program

    The nested functions of [non_overlapping_circle_packed_image] close over
    the image, its dimensions and the configuration; the section variables
    stand for these captured names.  [placed_circles], which the closures
    mutate, is passed explicitly. *)

Section Closures.

Variables width height : Z.
Variable img_np : list (list color).
Variables min_radius max_radius : Z.
Variable max_attempts : Z.
Variable output_path : string.

Definition red (c : color) : Z := fst (fst c).
Definition green (c : color) : Z := snd (fst c).
Definition blue (c : color) : Z := snd c.

(** [np.mean(..., axis=0)] followed by [astype(int)] on one channel of a
    non-empty list of pixels: the mean, truncated toward zero. *)
Definition channel_mean (ch : color -> Z) (pixels : list color) : Z :=
  Z.quot (Py.sum (map ch pixels)) (Z.of_nat (length pixels)).

(** [img_np[y_min:y_max, x_min:x_max]]. *)
Definition crop (y_min y_max x_min x_max : Z) : list (list color) :=
  map (fun row => slice row x_min x_max) (slice img_np y_min y_max).

Definition get_avg_color (x y r : Z) : color :=
  let x_min := Z.max 0 (x - r) in
  let x_max := Z.min width (x + r) in
  let y_min := Z.max 0 (y - r) in
  let y_max := Z.min height (y + r) in
  let region := crop y_min y_max x_min x_max in
  let pixels := concat region in
  if 3 * Z.of_nat (length pixels) =? 0
  then (128, 128, 128)
  else (channel_mean red pixels, channel_mean green pixels, channel_mean blue pixels).

(** [c * (1 - factor)] for an integer channel [c]: a binary64 product. *)
Definition darkened (factor : float) (c : Z) : float :=
  fmul (dyadic c 0) (fsub one factor).

(** [max(0, int(c * (1 - factor)))].  [int] raises only on an infinity or a
    NaN; for a factor between 0 and 1 and a channel of an image the product
    is neither ([darken_channel_bounds]), and the model gives 0 there. *)
Definition darken_channel (factor : float) (c : Z) : Z :=
  match Py.int (darkened factor c) with
  | Ok v => Z.max 0 v
  | _ => 0
  end.

Definition darken_color (c : color) (factor : float) : color :=
  (darken_channel factor (red c), darken_channel factor (green c),
   darken_channel factor (blue c)).

(** Squared distance between two centers, the argument of [math.sqrt]. *)
Definition dist2 (x1 y1 x2 y2 : Z) : Z := (x2 - x1) ^ 2 + (y2 - y1) ^ 2.

(** [math.sqrt(d2) < r1 + r2 + buffer], decided on the integers. *)
Definition circles_overlap (x1 y1 r1 x2 y2 r2 buffer : Z) : bool :=
  let s := r1 + r2 + buffer in
  (0 <? s) && (dist2 x1 y1 x2 y2 <? s * s).

(** The default value of [buffer], used by every call in the program. *)
Definition default_buffer : Z := 2.

Definition out_of_bounds (x y r : Z) : bool :=
  (x - r <? 0) || (x + r >? width) || (y - r <? 0) || (y + r >? height).

(** The [for] loop of [can_place_circle], with its early [return False]. *)
Fixpoint clear_of (existing : list circle) (x y r : Z) : bool :=
  match existing with
  | [] => true
  | (existing_x, existing_y, existing_r) :: rest =>
      if circles_overlap x y r existing_x existing_y existing_r default_buffer
      then false
      else clear_of rest x y r
  end.

Definition can_place_circle (placed : list circle) (x y r : Z) : bool :=
  if out_of_bounds x y r then false else clear_of placed x y r.

Definition size_weights : list Z := [20; 30; 30; 15; 5].

Definition size_ranges : list (Z * Z) :=
  [ (min_radius, min_radius + 3);
    (min_radius + 3, min_radius + 8);
    (min_radius + 8, min_radius + 13);
    (min_radius + 13, min_radius + 18);
    (min_radius + 18, max_radius) ].

Definition get_varied_radius : M Z :=
  chosen_range <- choices size_ranges size_weights ;;
  randint (fst chosen_range) (Z.min (snd chosen_range) max_radius).

(** Drawing the accepted circle and recording it. *)
Definition place (darken : float) (width_div : Z) (st : state) (x y r : Z) : state :=
  let color := get_avg_color x y r in
  let outline_color := darken_color color darken in
  let outline_width := Z.max 1 (r / width_div) in
  mkState (placed_circles st ++ [(x, y, r)])
          (canvas st ++ [mkEllipse (x - r, y - r, x + r, y + r)
                                   color outline_color outline_width])
          (circles_placed st + 1)
          (total_attempts st).

Definition count_attempt (st : state) : state :=
  mkState (placed_circles st) (canvas st) (circles_placed st) (total_attempts st + 1).

(** One iteration of the Phase 1 [while] loop. *)
Definition phase1_step (st : state) : M state :=
  r <- get_varied_radius ;;
  x <- randint r (width - r) ;;
  y <- randint r (height - r) ;;
  let st' :=
    if can_place_circle (placed_circles st) x y r
    then place float_0_4 5 st x y r
    else st in
  ret (count_attempt st').

Definition phase1_continue (target_circles : Z) (st : state) : bool :=
  (circles_placed st <? target_circles)
  && (total_attempts st <? target_circles * max_attempts).

(** The Phase 1 [while] loop, unrolled at most [fuel] times. *)
Fixpoint phase1 (target_circles : Z) (fuel : nat) (st : state) : M state :=
  if phase1_continue target_circles st
  then match fuel with
       | O => fun _ => OutOfFuel
       | S fuel' => st' <- phase1_step st ;; phase1 target_circles fuel' st'
       end
  else ret st.

(** One iteration of the Phase 2 [for] loop. *)
Definition phase2_step (st : state) : M state :=
  r <- randint min_radius (min_radius + 5) ;;
  x <- randint r (width - r) ;;
  y <- randint r (height - r) ;;
  ret (if can_place_circle (placed_circles st) x y r
       then place float_0_3 6 st x y r
       else st).

(** [for i in range(n)]. *)
Fixpoint phase2 (n : nat) (st : state) : M state :=
  match n with
  | O => ret st
  | S n' => st' <- phase2_step st ;; phase2 n' st'
  end.

Definition lift {A} (r : result A) : M A :=
  fun g => match r with
           | Ok a => Ok (a, g)
           | Raised e => Raised e
           | OutOfFuel => OutOfFuel
           end.

Definition radius_of (c : circle) : Z := snd c.

(** The statistics block. *)
Definition compute_stats (placed : list circle) : result stats :=
  let sizes := map radius_of placed in
  match Py.min sizes with
  | Ok mn =>
      match Py.max sizes with
      | Ok mx =>
          match truediv (Py.sum sizes) (Z.of_nat (length sizes)) with
          | Ok avg => Ok (mkStats mn mx avg (Z.of_nat (length sizes)))
          | Raised e => Raised e
          | OutOfFuel => OutOfFuel
          end
      | Raised e => Raised e
      | OutOfFuel => OutOfFuel
      end
  | Raised e => Raised e
  | OutOfFuel => OutOfFuel
  end.

Definition initial : state := mkState [] [] 0 0.

(** Both placement phases, from the value of [target_circles] on. *)
Definition placement (target_circles : Z) : M state :=
  st1 <- phase1 target_circles (Z.to_nat (target_circles * max_attempts)) initial ;;
  let gap_fill_attempts := target_circles / 2 in
  phase2 (Z.to_nat gap_fill_attempts) st1.

(** The body of the function after [target_circles] has been computed. *)
Definition pack (target_circles : Z) : M outcome :=
  st <- placement target_circles ;;
  size_stats <- lift (compute_stats (placed_circles st)) ;;
  ret (mkOutcome output_path output_path st size_stats).

(** [math.pi * ((min_radius + max_radius) / 2) ** 2]. *)
Definition avg_circle_area : result float :=
  and_then (half (min_radius + max_radius)) (fun x =>
  and_then (square x) (fun sq =>
  Ok (fmul pi sq))).

Definition image_area : Z := width * height.

(** [(image_area / avg_circle_area) * density_factor], the argument of
    [int]. *)
Definition target_float (density_factor : float) : result float :=
  and_then avg_circle_area (fun avg =>
  and_then (float_of_int image_area) (fun area =>
  and_then (float_truediv area avg) (fun ratio =>
  Ok (fmul ratio density_factor)))).

(** [int((image_area / avg_circle_area) * density_factor)]. *)
Definition target_circles (density_factor : float) : result Z :=
  and_then (target_float density_factor) Py.int.

Definition non_overlapping_circle_packed_image (density_factor : float) : M outcome :=
  target <- lift (target_circles density_factor) ;;
  pack target.

End Closures.

(** ** Specification vocabulary *)

(** The random source after [n] further raw draws. *)
Definition advance (n : nat) (g : RandomState) : RandomState :=
  mkRandom (raw g) (n + pos g).

Definition cx (c : circle) : Z := fst (fst c).
Definition cy (c : circle) : Z := snd (fst c).

(** The disk of [c] lies inside the canvas. *)
Definition in_bounds (width height : Z) (c : circle) : Prop :=
  radius_of c <= cx c <= width - radius_of c
  /\ radius_of c <= cy c <= height - radius_of c.

(** Euclidean distance between the centers of two circles. *)
Definition distance (c1 c2 : circle) : R :=
  sqrt (IZR (dist2 (cx c1) (cy c1) (cx c2) (cy c2))).

(** Two circles keep the clearance [buffer] between their boundaries. *)
Definition apart (buffer : Z) (c1 c2 : circle) : Prop :=
  (distance c1 c2 >= IZR (radius_of c1 + radius_of c2 + buffer))%R.

(** Every two entries at different positions of the list are [apart]. *)
Definition no_overlap (buffer : Z) (placed : list circle) : Prop :=
  forall i j c1 c2,
    i <> j ->
    nth_error placed i = Some c1 ->
    nth_error placed j = Some c2 ->
    apart buffer c1 c2.

(** The same, as the program tests it. *)
Definition clear (c1 c2 : circle) : Prop :=
  circles_overlap (cx c1) (cy c1) (radius_of c1)
                  (cx c2) (cy c2) (radius_of c2) default_buffer = false.

Definition pairwise_clear (placed : list circle) : Prop :=
  forall i j c1 c2,
    i <> j ->
    nth_error placed i = Some c1 ->
    nth_error placed j = Some c2 ->
    clear c1 c2.

(** What the loops maintain. *)
Record Inv (width height : Z) (st : state) : Prop := mkInv {
  inv_bounds : Forall (in_bounds width height) (placed_circles st);
  inv_clear : pairwise_clear (placed_circles st);
  inv_count : circles_placed st = Z.of_nat (length (placed_circles st));
  inv_canvas : length (canvas st) = length (placed_circles st)
}.

(** One candidate: dropped, or accepted after [can_place_circle] said yes. *)
Inductive candidate (width height : Z) (st st' : state) : Prop :=
| candidate_dropped :
    placed_circles st' = placed_circles st ->
    canvas st' = canvas st ->
    circles_placed st' = circles_placed st ->
    candidate width height st st'
| candidate_accepted (x y r : Z) (e : ellipse) :
    can_place_circle width height (placed_circles st) x y r = true ->
    placed_circles st' = placed_circles st ++ [(x, y, r)] ->
    canvas st' = canvas st ++ [e] ->
    circles_placed st' = circles_placed st + 1 ->
    candidate width height st st'.

(** ** The sampled region, described by pixel coordinates *)

(** The image has [height] rows of [width] pixels. *)
Definition rectangular (width height : Z) (img : list (list color)) : Prop :=
  Z.of_nat (length img) = height
  /\ Forall (fun row => Z.of_nat (length row) = width) img.

Definition pixel_at (img : list (list color)) (i j : nat) : color :=
  nth j (nth i img []) (0, 0, 0).

(** The indices [a, a + 1, ..., b - 1]. *)
Definition span (a b : Z) : list nat := seq (Z.to_nat a) (Z.to_nat (b - a)).

(** The pixels of rows [y_min <= i < y_max] and columns [x_min <= j < x_max],
    row by row. *)
Definition box_pixels (img : list (list color))
    (y_min y_max x_min x_max : Z) : list color :=
  flat_map (fun i => map (pixel_at img i) (span x_min x_max)) (span y_min y_max).

(** Mean of one channel, truncated to an integer. *)
Definition mean (ch : color -> Z) (pixels : list color) : Z :=
  Z.quot (fold_right Z.add 0 (map ch pixels)) (Z.of_nat (length pixels)).

Definition sample_image : list (list color) :=
  [ [ (0, 0, 0);    (10, 20, 30);  (20, 40, 60);    (30, 60, 90) ];
    [ (40, 80, 120); (51, 101, 151); (60, 120, 180); (70, 140, 210) ];
    [ (80, 160, 240); (90, 180, 250); (100, 200, 255); (110, 220, 255) ] ].

(** ** Colors as the image library stores them *)

(** Every channel fits in a byte. *)
Definition byte_color (c : color) : Prop :=
  0 <= red c <= 255 /\ 0 <= green c <= 255 /\ 0 <= blue c <= 255.

Definition byte_image (img : list (list color)) : Prop :=
  Forall (Forall byte_color) img.

(** Channel by channel, [c] is no brighter than [c']. *)
Definition no_brighter (c c' : color) : Prop :=
  red c <= red c' /\ green c <= green c' /\ blue c <= blue c'.

(** ** Radii, drawn ellipses and errors *)

Definition radius_between (lo hi : Z) (c : circle) : Prop :=
  lo <= radius_of c <= hi.



(** A float that is not negative and not above the integer [B]. *)
Definition float_at_most (B : Z) (x : float) : Prop :=
  match x with
  | S754_zero _ => True
  | S754_finite false m e => e <= 0 /\ Zpos m <= B * 2 ^ (- e)
  | _ => False
  end.

(** [0 <= factor <= 1] on a well-formed float. *)
Definition between_0_and_1 (factor : float) : bool :=
  valid_binary prec emax factor
  && SFleb (S754_zero false) factor && SFleb factor one.

(** The exceptions the computation of [target_circles] can raise. *)
Definition target_error (e : exn) : Prop :=
  e = OverflowError "integer division result too large for a float"%string
  \/ e = OverflowError "(34, 'Numerical result out of range')"%string
  \/ e = OverflowError "int too large to convert to float"%string
  \/ e = ZeroDivisionError "float division by zero"%string
  \/ e = OverflowError "cannot convert float infinity to integer"%string
  \/ e = ValueError "cannot convert float NaN to integer"%string.

(** The exceptions a call can end with. *)
Definition expected_error (e : exn) : Prop :=
  target_error e
  \/ e = ValueError "empty range for randrange()"%string
  \/ e = ValueError "min() arg is an empty sequence"%string.

(** What one iteration of either loop leaves behind for a candidate
    [(x, y, r)]. *)
Definition after_candidate (width height : Z) (img : list (list color))
    (darken : float) (width_div : Z) (st : state) (x y r : Z) : state :=
  if can_place_circle width height (placed_circles st) x y r
  then place width height img darken width_div st x y r
  else st.

(** ** The target count, in the specification's words *)

(** The rational a float stands for (0 for what is not a number). *)
Definition float_value (x : float) : Q :=
  match x with
  | S754_finite s m e =>
      if 0 <=? e
      then inject_Z (cond_Zopp s (Zpos m * 2 ^ e))
      else Qmake (cond_Zopp s (Zpos m)) (Z.to_pos (2 ^ (- e)))
  | _ => 0%Q
  end.

(** Following the spec's words: the floor of
    (canvas_area / avg_circle_area) * density_factor, where avg_circle_area
    is pi * ((min_radius + max_radius) / 2)^2, over the real numbers. *)
Definition spec_target_circles
    (width height min_radius max_radius : Z) (density_factor : R) : Z :=
  Int_part (IZR (width * height)
            / (PI * (IZR (min_radius + max_radius) / 2) ^ 2)
            * density_factor)%R.

(** ** Sample inputs *)

(** The default of [density_factor], 1.5. *)
Definition default_density_factor : float := dyadic 3 (-1).

(** The float 1.0. *)
Definition unit_density_factor : float := dyadic 1 0.

(** The float 0.17671458676442586. *)
Definition boundary_density_factor : float := dyadic 6366813976825596 (-55).


Definition sample_raw (n : nat) : Z :=
  (Z.of_nat n * 7919 + 13 * Z.of_nat n * Z.of_nat n + 17) mod 1009.

Definition sample_rng : RandomState := mkRandom sample_raw 0.

(** A random source whose every raw draw is [v]. *)
Definition const_rng (v : Z) : RandomState := mkRandom (fun _ => v) 0.

Definition flat_image (w h : nat) : list (list color) :=
  repeat (repeat (10, 20, 30) w) h.

(** * Properties *)

(** ** The random source and the runtime *)

Lemma advance_advance (n m : nat) (g : RandomState) :
  advance n (advance m g) = advance (n + m) g.
Proof. unfold advance; simpl. f_equal. lia. Qed.

Lemma advance_0 (g : RandomState) : advance 0 g = g.
Proof. destruct g; reflexivity. Qed.

Lemma bind_Ok_inv {A B} (m : M A) (k : A -> M B) g b g' :
  bind m k g = Ok (b, g') ->
  exists a g1, m g = Ok (a, g1) /\ k a g1 = Ok (b, g').
Proof.
  unfold bind. destruct (m g) as [[a g1] | e | ]; try discriminate.
  intros H. exists a, g1. split; [reflexivity | exact H].
Qed.

Lemma bind_not_OutOfFuel {A B} (m : M A) (k : A -> M B) g :
  m g <> OutOfFuel ->
  (forall a g1, m g = Ok (a, g1) -> k a g1 <> OutOfFuel) ->
  bind m k g <> OutOfFuel.
Proof.
  unfold bind. intros Hm Hk. destruct (m g) as [[a g1] | e | ].
  - apply Hk. reflexivity.
  - discriminate.
  - exfalso. apply Hm. reflexivity.
Qed.

Lemma randint_Ok_inv a b g v g' :
  randint a b g = Ok (v, g') ->
  a <= v <= b /\ g' = advance 1 g.
Proof.
  unfold randint. destruct (b <? a) eqn:E; [discriminate |].
  apply Z.ltb_ge in E. unfold bind, next_raw, ret. intros H.
  injection H as <- <-. split; [| reflexivity].
  assert (0 <= raw g (pos g) mod (b - a + 1) < b - a + 1)
    by (apply Z.mod_pos_bound; lia).
  lia.
Qed.

Lemma randint_empty a b g :
  b < a -> randint a b g = Raised (ValueError "empty range for randrange()"%string).
Proof.
  intros H. unfold randint. apply Z.ltb_lt in H. rewrite H. reflexivity.
Qed.

Lemma randint_total a b g :
  a <= b -> exists v, randint a b g = Ok (v, advance 1 g).
Proof.
  intros H. unfold randint. apply Z.ltb_ge in H. rewrite H.
  eexists. reflexivity.
Qed.

Lemma randint_not_OutOfFuel a b g : randint a b g <> OutOfFuel.
Proof. unfold randint. destruct (b <? a); discriminate. Qed.

(** The bucket the sampler picks is one of the five of the table, and the
    choice itself cannot raise. *)
Lemma choices_size_ranges mn mx g :
  exists c, In c (size_ranges mn mx)
            /\ choices (size_ranges mn mx) size_weights g = Ok (c, advance 1 g).
Proof.
  unfold choices, bind, next_raw, ret. cbn -[Z.modulo nth_error In].
  set (t := raw g (pos g) mod 100).
  destruct (t <? 20); [eexists; split; [| reflexivity]; simpl; tauto |].
  destruct (t <? 50); [eexists; split; [| reflexivity]; simpl; tauto |].
  destruct (t <? 80); [eexists; split; [| reflexivity]; simpl; tauto |].
  destruct (t <? 95); eexists; (split; [| reflexivity]); simpl; tauto.
Qed.

Lemma size_ranges_lower mn mx c : In c (size_ranges mn mx) -> mn <= fst c.
Proof.
  unfold size_ranges. simpl.
  intros [<- | [<- | [<- | [<- | [<- | []]]]]]; simpl; lia.
Qed.

Lemma get_varied_radius_Ok_inv mn mx g r g' :
  get_varied_radius mn mx g = Ok (r, g') ->
  mn <= r <= mx /\ g' = advance 2 g.
Proof.
  unfold get_varied_radius. intros H.
  apply bind_Ok_inv in H as (c & g1 & Hc & Hr).
  destruct (choices_size_ranges mn mx g) as (c' & Hin & Hc').
  rewrite Hc' in Hc. injection Hc as <- <-.
  apply randint_Ok_inv in Hr as [Hr ->].
  apply size_ranges_lower in Hin.
  split; [lia | apply advance_advance].
Qed.

Lemma get_varied_radius_not_OutOfFuel mn mx g :
  get_varied_radius mn mx g <> OutOfFuel.
Proof.
  unfold get_varied_radius. apply bind_not_OutOfFuel.
  - destruct (choices_size_ranges mn mx g) as (c & _ & ->). discriminate.
  - intros; apply randint_not_OutOfFuel.
Qed.

(** With at least 18 units between the two radii no bucket is empty, and the
    sampler always returns. *)
Lemma get_varied_radius_total mn mx g :
  mn + 18 <= mx ->
  exists r, get_varied_radius mn mx g = Ok (r, advance 2 g).
Proof.
  intros H. unfold get_varied_radius.
  destruct (choices_size_ranges mn mx g) as (c & Hin & Hc).
  assert (fst c <= Z.min (snd c) mx) as Hle.
  { unfold size_ranges in Hin. simpl in Hin.
    destruct Hin as [<- | [<- | [<- | [<- | [<- | []]]]]]; simpl; lia. }
  destruct (randint_total _ _ (advance 1 g) Hle) as (v & Hv).
  exists v. unfold bind. rewrite Hc, Hv. rewrite advance_advance. reflexivity.
Qed.

(** ** Collision test *)

Lemma dist2_nonneg x1 y1 x2 y2 : 0 <= dist2 x1 y1 x2 y2.
Proof. unfold dist2. nia. Qed.

Lemma dist2_sym x1 y1 x2 y2 : dist2 x1 y1 x2 y2 = dist2 x2 y2 x1 y1.
Proof. unfold dist2. ring. Qed.

Lemma circles_overlap_sym x1 y1 r1 x2 y2 r2 b :
  circles_overlap x1 y1 r1 x2 y2 r2 b = circles_overlap x2 y2 r2 x1 y1 r1 b.
Proof.
  unfold circles_overlap. rewrite (dist2_sym x1 y1 x2 y2).
  replace (r2 + r1 + b) with (r1 + r2 + b) by ring. reflexivity.
Qed.

(** The integer test decides the comparison the source writes with
    [math.sqrt]. *)
Lemma circles_overlap_sqrt x1 y1 r1 x2 y2 r2 b :
  circles_overlap x1 y1 r1 x2 y2 r2 b = true
  <-> (sqrt (IZR (dist2 x1 y1 x2 y2)) < IZR (r1 + r2 + b))%R.
Proof.
  unfold circles_overlap.
  pose proof (dist2_nonneg x1 y1 x2 y2) as Hd.
  set (d := dist2 x1 y1 x2 y2) in *. set (s := r1 + r2 + b).
  rewrite andb_true_iff, Z.ltb_lt, Z.ltb_lt.
  split.
  - intros [Hs Hlt].
    rewrite <- (sqrt_square (IZR s)) by (apply IZR_le; lia).
    rewrite <- mult_IZR.
    apply sqrt_lt_1; try (apply IZR_le; nia). apply IZR_lt; exact Hlt.
  - intros H.
    assert (0 < s) as Hs.
    { apply lt_IZR. eapply Rle_lt_trans; [apply sqrt_pos | exact H]. }
    split; [exact Hs |].
    destruct (Z_lt_le_dec d (s * s)) as [Hlt | Hge]; [exact Hlt | exfalso].
    apply (Rlt_irrefl (IZR s)).
    eapply Rle_lt_trans; [| exact H].
    rewrite <- (sqrt_square (IZR s)) at 1 by (apply IZR_le; lia).
    rewrite <- mult_IZR.
    apply sqrt_le_1; try (apply IZR_le; nia).
Qed.

Lemma clear_apart c1 c2 : clear c1 c2 -> apart default_buffer c1 c2.
Proof.
  unfold clear, apart, distance. intros H.
  apply Rnot_lt_ge. intros Hlt.
  apply circles_overlap_sqrt in Hlt. congruence.
Qed.

Lemma clear_sym c1 c2 : clear c1 c2 -> clear c2 c1.
Proof. unfold clear. rewrite circles_overlap_sym. trivial. Qed.

Lemma clear_of_Forall placed x y r :
  clear_of placed x y r = true -> Forall (clear (x, y, r)) placed.
Proof.
  induction placed as [| [[ex ey] er] rest IH]; simpl; intros H.
  - constructor.
  - destruct (circles_overlap x y r ex ey er default_buffer) eqn:E;
      [discriminate |].
    constructor; [exact E | apply IH; exact H].
Qed.

Lemma can_place_circle_true width height placed x y r :
  can_place_circle width height placed x y r = true ->
  in_bounds width height (x, y, r) /\ Forall (clear (x, y, r)) placed.
Proof.
  unfold can_place_circle, out_of_bounds.
  destruct (x - r <? 0) eqn:E1; [discriminate |].
  destruct (x + r >? width) eqn:E2; [discriminate |].
  destruct (y - r <? 0) eqn:E3; [discriminate |].
  destruct (y + r >? height) eqn:E4; [discriminate |].
  simpl. intros H. split; [| apply clear_of_Forall; exact H].
  apply Z.ltb_ge in E1, E3. rewrite Z.gtb_ltb in E2, E4.
  apply Z.ltb_ge in E2, E4.
  unfold in_bounds, cx, cy, radius_of; simpl. lia.
Qed.

Lemma pairwise_clear_snoc placed c :
  pairwise_clear placed ->
  Forall (clear c) placed ->
  pairwise_clear (placed ++ [c]).
Proof.
  intros Hp Hc i j c1 c2 Hij H1 H2.
  rewrite Forall_forall in Hc.
  assert (forall k e, nth_error (placed ++ [c]) k = Some e ->
                      (k < length placed)%nat /\ nth_error placed k = Some e
                      \/ k = length placed /\ e = c) as Hcase.
  { intros k e Hk.
    destruct (Nat.lt_ge_cases k (length placed)) as [Hlt | Hge].
    - left. rewrite nth_error_app1 in Hk by exact Hlt. auto.
    - right. rewrite nth_error_app2 in Hk by exact Hge.
      destruct (k - length placed)%nat as [| n] eqn:En; simpl in Hk.
      + injection Hk as <-. split; [lia | reflexivity].
      + destruct n; discriminate. }
  destruct (Hcase _ _ H1) as [[_ Hi] | [Hi ->]];
    destruct (Hcase _ _ H2) as [[_ Hj] | [Hj ->]].
  - exact (Hp i j c1 c2 Hij Hi Hj).
  - apply clear_sym, Hc. eapply nth_error_In; exact Hi.
  - apply Hc. eapply nth_error_In; exact Hj.
  - lia.
Qed.

Lemma pairwise_clear_no_overlap placed :
  pairwise_clear placed -> no_overlap default_buffer placed.
Proof.
  intros H i j c1 c2 Hij H1 H2. apply clear_apart. exact (H i j c1 c2 Hij H1 H2).
Qed.

(** ** The invariant and the two loops *)

Lemma Inv_initial width height : Inv width height initial.
Proof.
  constructor; simpl; try reflexivity; [constructor |].
  intros [| i] j c1 c2 _ H; discriminate.
Qed.

Lemma candidate_Inv width height st st' :
  Inv width height st -> candidate width height st st' -> Inv width height st'.
Proof.
  intros [Hb Hc Hn Hv] [Hp Hcv Hcnt | x y r e Hcan Hp Hcv Hcnt].
  - constructor; rewrite ?Hp, ?Hcv, ?Hcnt; assumption.
  - apply can_place_circle_true in Hcan as [Hin Hclear].
    constructor; rewrite ?Hp, ?Hcv, ?Hcnt.
    + apply Forall_app. split; [exact Hb | constructor; [exact Hin | constructor]].
    + apply pairwise_clear_snoc; assumption.
    + rewrite length_app, Hn. simpl. lia.
    + rewrite !length_app, Hv. reflexivity.
Qed.

Section Loops.

Variables width height : Z.
Variable img_np : list (list color).
Variables min_radius max_radius : Z.
Variable max_attempts : Z.

Local Abbreviation step1 :=
  (phase1_step width height img_np min_radius max_radius).
Local Abbreviation step2 :=
  (phase2_step width height img_np min_radius).
Local Abbreviation loop1 :=
  (phase1 width height img_np min_radius max_radius max_attempts).
Local Abbreviation loop2 :=
  (phase2 width height img_np min_radius).

Lemma place_candidate darken width_div st x y r :
  can_place_circle width height (placed_circles st) x y r = true ->
  candidate width height st (place width height img_np darken width_div st x y r).
Proof.
  intros H. eapply candidate_accepted; [exact H | reflexivity ..].
Qed.

Lemma phase1_step_Ok st g st' g' :
  step1 st g = Ok (st', g') ->
  candidate width height st st'
  /\ total_attempts st' = total_attempts st + 1
  /\ g' = advance 4 g.
Proof.
  unfold phase1_step. intros H.
  apply bind_Ok_inv in H as (r & g1 & Hr & H).
  apply bind_Ok_inv in H as (x & g2 & Hx & H).
  apply bind_Ok_inv in H as (y & g3 & Hy & H).
  apply get_varied_radius_Ok_inv in Hr as [_ ->].
  apply randint_Ok_inv in Hx as [_ ->].
  apply randint_Ok_inv in Hy as [_ ->].
  unfold ret in H. injection H as <- <-.
  rewrite !advance_advance. simpl.
  destruct (can_place_circle width height (placed_circles st) x y r) eqn:E.
  - split; [| split; reflexivity].
    eapply candidate_accepted; [exact E | reflexivity ..].
  - split; [| split; reflexivity]. apply candidate_dropped; reflexivity.
Qed.

Lemma phase2_step_Ok st g st' g' :
  step2 st g = Ok (st', g') ->
  candidate width height st st'
  /\ total_attempts st' = total_attempts st
  /\ g' = advance 3 g.
Proof.
  unfold phase2_step. intros H.
  apply bind_Ok_inv in H as (r & g1 & Hr & H).
  apply bind_Ok_inv in H as (x & g2 & Hx & H).
  apply bind_Ok_inv in H as (y & g3 & Hy & H).
  apply randint_Ok_inv in Hr as [_ ->].
  apply randint_Ok_inv in Hx as [_ ->].
  apply randint_Ok_inv in Hy as [_ ->].
  unfold ret in H. injection H as <- <-.
  rewrite !advance_advance. simpl.
  destruct (can_place_circle width height (placed_circles st) x y r) eqn:E.
  - split; [| split; reflexivity]. apply place_candidate. exact E.
  - split; [| split; reflexivity]. apply candidate_dropped; reflexivity.
Qed.

Lemma phase1_step_not_OutOfFuel st g : step1 st g <> OutOfFuel.
Proof.
  unfold phase1_step.
  apply bind_not_OutOfFuel; [apply get_varied_radius_not_OutOfFuel |].
  intros r g1 _.
  apply bind_not_OutOfFuel; [apply randint_not_OutOfFuel |].
  intros x g2 _.
  apply bind_not_OutOfFuel; [apply randint_not_OutOfFuel |].
  intros y g3 _. discriminate.
Qed.

Lemma phase2_step_not_OutOfFuel st g : step2 st g <> OutOfFuel.
Proof.
  unfold phase2_step.
  apply bind_not_OutOfFuel; [apply randint_not_OutOfFuel |].
  intros r g1 _.
  apply bind_not_OutOfFuel; [apply randint_not_OutOfFuel |].
  intros x g2 _.
  apply bind_not_OutOfFuel; [apply randint_not_OutOfFuel |].
  intros y g3 _. discriminate.
Qed.

(** A completed Phase 1 loop ran [k] iterations: the attempt counter moved by
    [k], the random source by [4 * k], and the counter never passes the
    budget it is compared with. *)
Lemma phase1_Ok target fuel : forall st g st' g',
  loop1 target fuel st g = Ok (st', g') ->
  Inv width height st ->
  Inv width height st'
  /\ phase1_continue max_attempts target st' = false
  /\ exists k : nat,
       (k <= fuel)%nat
       /\ total_attempts st' = total_attempts st + Z.of_nat k
       /\ g' = advance (4 * k) g
       /\ (k = O \/ total_attempts st' <= target * max_attempts).
Proof.
  induction fuel as [| fuel IH]; intros st g st' g' H HI; simpl in H.
  - destruct (phase1_continue max_attempts target st) eqn:E; [discriminate |].
    injection H as <- <-. split; [exact HI | split; [exact E |]].
    exists O. rewrite advance_0. repeat split; auto; lia.
  - destruct (phase1_continue max_attempts target st) eqn:E.
    + apply bind_Ok_inv in H as (st1 & g1 & Hs & H).
      apply phase1_step_Ok in Hs as (Hc & Ha & ->).
      apply IH in H as (HI' & Hstop & k & Hk & Hk' & -> & Hb);
        [| eapply candidate_Inv; eassumption].
      split; [exact HI' | split; [exact Hstop |]].
      exists (S k). rewrite advance_advance.
      repeat split; [lia | lia | f_equal; lia |].
      right. destruct Hb as [-> | Hb]; [| exact Hb].
      unfold phase1_continue in E. apply andb_true_iff in E as [_ E].
      apply Z.ltb_lt in E. lia.
    + injection H as <- <-. split; [exact HI | split; [exact E |]].
      exists O. rewrite advance_0. repeat split; auto; lia.
Qed.

(** The budget [target * max_attempts] is enough fuel: the loop never stops
    for lack of it. *)
Lemma phase1_enough_fuel target fuel : forall st g,
  (Z.to_nat (target * max_attempts - total_attempts st) <= fuel)%nat ->
  loop1 target fuel st g <> OutOfFuel.
Proof.
  induction fuel as [| fuel IH]; intros st g Hf; simpl.
  - destruct (phase1_continue max_attempts target st) eqn:E; [| discriminate].
    unfold phase1_continue in E. apply andb_true_iff in E as [_ E].
    apply Z.ltb_lt in E. lia.
  - destruct (phase1_continue max_attempts target st) eqn:E; [| discriminate].
    apply bind_not_OutOfFuel; [apply phase1_step_not_OutOfFuel |].
    intros st1 g1 Hs. apply phase1_step_Ok in Hs as (_ & Ha & _).
    apply IH. rewrite Ha. lia.
Qed.

(** More fuel does not change what the loop computes. *)
Lemma phase1_more_fuel target fuel : forall st g,
  loop1 target fuel st g <> OutOfFuel ->
  forall fuel', (fuel <= fuel')%nat ->
  loop1 target fuel' st g = loop1 target fuel st g.
Proof.
  induction fuel as [| fuel IH]; intros st g H fuel' Hle.
  - simpl in *. destruct fuel'; simpl;
      destruct (phase1_continue max_attempts target st); congruence.
  - destruct fuel' as [| fuel']; [lia |]. simpl in *.
    destruct (phase1_continue max_attempts target st); [| reflexivity].
    unfold bind in *.
    destruct (phase1_step width height img_np min_radius max_radius st g)
      as [[st1 g1] | e |]; try reflexivity.
    apply IH; [exact H | lia].
Qed.

Lemma phase2_Ok n : forall st g st' g',
  loop2 n st g = Ok (st', g') ->
  Inv width height st ->
  Inv width height st'
  /\ total_attempts st' = total_attempts st
  /\ g' = advance (3 * n) g.
Proof.
  induction n as [| n IH]; intros st g st' g' H HI; simpl in H.
  - injection H as <- <-. rewrite advance_0. auto.
  - apply bind_Ok_inv in H as (st1 & g1 & Hs & H).
    apply phase2_step_Ok in Hs as (Hc & Ha & ->).
    apply IH in H as (HI' & Ha' & ->); [| eapply candidate_Inv; eassumption].
    rewrite advance_advance.
    split; [exact HI' | split; [congruence | f_equal; lia]].
Qed.

Lemma phase2_not_OutOfFuel n : forall st g, loop2 n st g <> OutOfFuel.
Proof.
  induction n as [| n IH]; intros st g; simpl; [discriminate |].
  apply bind_not_OutOfFuel; [apply phase2_step_not_OutOfFuel |].
  intros; apply IH.
Qed.

End Loops.

(** ** The target count *)

Lemma PI_bounds : (3141 / 1000 < PI < 3143 / 1000)%R.
Proof.
  pose proof (PI_2_3_7_ineq 1) as [Hlo Hhi].
  unfold sum_f_R0, tg_alt, PI_2_3_7_tg, Ratan_seq in Hlo, Hhi.
  simpl in Hlo, Hhi.
  split; lra.
Qed.

Lemma and_then_Ok_inv {A B} (r : result A) (k : A -> result B) b :
  and_then r k = Ok b -> exists a, r = Ok a /\ k a = Ok b.
Proof.
  destruct r as [a | e |]; simpl; try discriminate.
  intros H. exists a. split; [reflexivity | exact H].
Qed.

Lemma and_then_Raised_inv {A B} (r : result A) (k : A -> result B) e :
  and_then r k = Raised e ->
  r = Raised e \/ exists a, r = Ok a /\ k a = Raised e.
Proof.
  destruct r as [a | e' |]; simpl; try discriminate.
  - intros H. right. exists a. split; [reflexivity | exact H].
  - intros H. left. injection H as <-. reflexivity.
Qed.

Lemma digits2_pos_size (m : positive) : digits2_pos m = Pos.size m.
Proof. induction m; simpl; congruence. Qed.

Lemma digits2_pos_lower (m : positive) :
  2 ^ (Zpos (digits2_pos m) - 1) <= Zpos m.
Proof.
  rewrite digits2_pos_size.
  pose proof (Pos.size_le m) as H.
  assert (Zpos (2 ^ Pos.size m) <= Zpos m~0) as H' by exact H.
  rewrite Pos2Z.inj_pow in H'.
  assert (2 ^ Zpos (Pos.size m) = 2 * 2 ^ (Zpos (Pos.size m) - 1)) as E.
  { rewrite <- Z.pow_succ_r by lia. f_equal. lia. }
  rewrite Pos2Z.inj_xO in H'. lia.
Qed.

Lemma iter_pos_iter {A} (f : A -> A) (p : positive) : forall x,
  iter_pos f p x = Pos.iter f x p.
Proof.
  induction p as [p IH | p IH |]; intros x; simpl.
  - rewrite !IH. rewrite <- Pos.iter_swap. rewrite <- Pos.iter_swap. reflexivity.
  - rewrite !IH. reflexivity.
  - reflexivity.
Qed.

Lemma shr_1_m (r : shr_record) :
  0 <= shr_m r -> shr_m (shr_1 r) = Z.div2 (shr_m r).
Proof.
  destruct r as [m rb sb]. simpl. intros H.
  destruct m as [| [p | p |] | p]; simpl; try reflexivity; lia.
Qed.

Lemma shr_iter_m (p : positive) (r : shr_record) :
  0 <= shr_m r ->
  shr_m (iter_pos shr_1 p r) = shr_m r / 2 ^ Zpos p.
Proof.
  intros H. rewrite iter_pos_iter.
  rewrite <- Z.shiftr_div_pow2 by lia.
  change (Z.shiftr (shr_m r) (Zpos p)) with (Pos.iter Z.div2 (shr_m r) p).
  assert (0 <= shr_m (Pos.iter shr_1 r p)
          /\ shr_m (Pos.iter shr_1 r p) = Pos.iter Z.div2 (shr_m r) p) as [_ E];
    [| exact E].
  apply (Pos.iter_ind _ shr_1 r
           (fun q r' => 0 <= shr_m r' /\ shr_m r' = Pos.iter Z.div2 (shr_m r) q)).
  - rewrite shr_1_m by exact H. simpl. split; [| reflexivity].
    rewrite Z.div2_div. apply Z.div_pos; lia.
  - intros q r' [H0 E]. rewrite shr_1_m by exact H0.
    rewrite Pos.iter_succ, <- E. split; [| reflexivity].
    rewrite Z.div2_div. apply Z.div_pos; lia.
Qed.

Lemma shr_record_of_loc_m m l : shr_m (shr_record_of_loc m l) = m.
Proof. destruct l as [| []]; reflexivity. Qed.

(** In the normal range a right shift keeps a positive mantissa positive and
    does not lower the exponent. *)
Lemma shr_fexp_positive (m : positive) (e : Z) (l : location) :
  -1021 <= e ->
  exists r e',
    shr_fexp 53 1024 (Zpos m) e l = (r, e') /\ 0 < shr_m r /\ e <= e'.
Proof.
  intros He. unfold shr_fexp, shr, fexp, emin. simpl Zdigits2.
  pose proof (digits2_pos_lower m) as Hlow.
  set (d := Zpos (digits2_pos m)) in *.
  assert (0 < d) as Hd by (unfold d; lia).
  replace (Z.max (d + e - 53) (3 - 1024 - 53) - e) with (d - 53) by lia.
  destruct (d - 53) as [| p | p] eqn:E.
  - eexists; eexists. split; [reflexivity |].
    rewrite shr_record_of_loc_m. split; lia.
  - eexists; eexists. split; [reflexivity |].
    rewrite shr_iter_m by (rewrite shr_record_of_loc_m; lia).
    rewrite shr_record_of_loc_m. split; [| lia].
    apply Z.div_str_pos. split; [apply Z.pow_pos_nonneg; lia |].
    apply Z.le_trans with (2 ^ (d - 1)); [| exact Hlow].
    apply Z.pow_le_mono_r; lia.
  - eexists; eexists. split; [reflexivity |].
    rewrite shr_record_of_loc_m. split; lia.
Qed.

Lemma round_nearest_even_positive m l :
  0 < m -> 0 < round_nearest_even m l.
Proof.
  intros H. destruct l as [| []]; simpl; try lia.
  destruct (Z.even m); lia.
Qed.

(** Rounding a non-zero number whose exponent is in the normal range gives a
    non-zero float of the same sign, or an infinity. *)
Lemma binary_round_aux_nonzero (s : bool) (m : positive) (e : Z) (l : location) :
  -1021 <= e ->
  (exists m' e', binary_round_aux 53 1024 s (Zpos m) e l = S754_finite s m' e'
                 /\ e <= e')
  \/ binary_round_aux 53 1024 s (Zpos m) e l = S754_infinity s.
Proof.
  intros He. unfold binary_round_aux.
  destruct (shr_fexp_positive m e l He) as (r1 & e1 & -> & Hr1 & He1).
  pose proof (round_nearest_even_positive _ (loc_of_shr_record r1) Hr1) as Hm2.
  destruct (round_nearest_even (shr_m r1) (loc_of_shr_record r1))
    as [| m2 | m2]; try lia.
  destruct (shr_fexp_positive m2 e1 loc_Exact ltac:(lia))
    as (r2 & e2 & -> & Hr2 & He2).
  destruct (shr_m r2) as [| m3 | m3]; try lia.
  destruct (e2 <=? 1024 - 53); [left | right; reflexivity].
  exists m3, e2. split; [reflexivity | lia].
Qed.

Lemma binary_round_nonzero (s : bool) (m : positive) (e : Z) :
  -900 <= e ->
  (exists m' e', binary_round 53 1024 s m e = S754_finite s m' e'
                 /\ e - 52 <= e')
  \/ binary_round 53 1024 s m e = S754_infinity s.
Proof.
  intros He. unfold binary_round, shl_align, fexp, emin.
  set (d := Zpos (digits2_pos m)).
  assert (0 < d) as Hd by (unfold d; lia).
  destruct (Z.max (d + e - 53) (3 - 1024 - 53) - e) as [| q | q] eqn:E.
  - destruct (binary_round_aux_nonzero s m e loc_Exact ltac:(lia))
      as [(m' & e' & -> & He') | ->]; [left | right; reflexivity].
    exists m', e'. split; [reflexivity | lia].
  - destruct (binary_round_aux_nonzero s m e loc_Exact ltac:(lia))
      as [(m' & e' & -> & He') | ->]; [left | right; reflexivity].
    exists m', e'. split; [reflexivity | lia].
  - destruct (binary_round_aux_nonzero s (Pos.iter xO m q)
                (Z.max (d + e - 53) (3 - 1024 - 53)) loc_Exact ltac:(lia))
      as [(m' & e' & -> & He') | ->]; [left | right; reflexivity].
    exists m', e'. split; [reflexivity | lia].
Qed.

(** The float nearest to a non-zero [k * 2 ^ e] is not a zero. *)
Lemma dyadic_nonzero (k e : Z) :
  k <> 0 -> -900 <= e ->
  (exists s m' e', dyadic k e = S754_finite s m' e' /\ e - 52 <= e')
  \/ exists s, dyadic k e = S754_infinity s.
Proof.
  intros Hk He. unfold dyadic, binary_normalize, prec, emax.
  destruct k as [| m | m]; [contradiction | |].
  - destruct (binary_round_nonzero false m e He)
      as [(m' & e' & -> & He') | ->]; [left | right; eexists; reflexivity].
    exists false, m', e'. split; [reflexivity | exact He'].
  - destruct (binary_round_nonzero true m e He)
      as [(m' & e' & -> & He') | ->]; [left | right; eexists; reflexivity].
    exists true, m', e'. split; [reflexivity | exact He'].
Qed.

(** [avg_circle_area] is the float zero only for radii that sum to zero. *)
Lemma avg_circle_area_zero_inv mn mx a :
  avg_circle_area mn mx = Ok a -> is_zero a = true -> mn + mx = 0.
Proof.
  intros Ha Hz.
  destruct (Z.eq_dec (mn + mx) 0) as [E | E]; [exact E | exfalso].
  unfold avg_circle_area in Ha.
  apply and_then_Ok_inv in Ha as (x & Hx & Ha).
  apply and_then_Ok_inv in Ha as (sq & Hsq & Ha).
  injection Ha as <-.
  unfold half in Hx.
  destruct (dyadic_nonzero (mn + mx) (-1) E ltac:(lia))
    as [(s & m & e & Hd & He) | (s & Hd)];
    rewrite Hd in Hx; simpl in Hx; [| discriminate].
  injection Hx as <-.
  unfold square in Hsq.
  assert (fmul (S754_finite s m e) (S754_finite s m e)
          = binary_round_aux 53 1024 (xorb s s) (Zpos (m * m)) (e + e)
              loc_Exact) as Hmul0 by reflexivity.
  rewrite Hmul0 in Hsq. simpl is_infinite in Hsq at 2.
  rewrite andb_true_r in Hsq.
  destruct (binary_round_aux_nonzero (xorb s s) (m * m) (e + e) loc_Exact
              ltac:(lia)) as [(m2 & e2 & Hr & He2) | Hr];
    rewrite Hr in Hsq; simpl in Hsq; [| discriminate].
  injection Hsq as <-.
  assert (is_zero (fmul pi (S754_finite (xorb s s) m2 e2)) = false) as Hnz.
  { change (is_zero (binary_round_aux 53 1024 (xorb false (xorb s s))
                       (Zpos (7074237752028440 * m2)) (-51 + e2) loc_Exact)
            = false).
    destruct (binary_round_aux_nonzero (xorb false (xorb s s))
                (7074237752028440 * m2) (-51 + e2) loc_Exact ltac:(lia))
      as [(m3 & e3 & -> & _) | ->]; reflexivity. }
  pose proof (eq_trans (eq_sym Hz) Hnz) as Habs. discriminate Habs.
Qed.

Lemma avg_circle_area_zero mn mx :
  mn + mx = 0 -> avg_circle_area mn mx = Ok (S754_zero false).
Proof. intros H. unfold avg_circle_area. rewrite H. reflexivity. Qed.

Lemma target_circles_not_OutOfFuel width height mn mx d :
  target_circles width height mn mx d <> OutOfFuel.
Proof.
  unfold target_circles, target_float, avg_circle_area, half, square,
    float_of_int, float_truediv, Py.int.
  destruct (is_infinite (dyadic (mn + mx) (-1))); simpl; [discriminate |].
  destruct (is_infinite _ && negb _); simpl; [discriminate |].
  destruct (is_infinite (dyadic (image_area width height) 0)); simpl;
    [discriminate |].
  destruct (is_zero _); simpl; [discriminate |].
  destruct (fmul _ d); discriminate.
Qed.

(** ** The whole function *)

Section Whole.

Variables width height : Z.
Variable img_np : list (list color).
Variables min_radius max_radius : Z.
Variable max_attempts : Z.
Variable output_path : string.

Local Abbreviation run :=
  (non_overlapping_circle_packed_image width height img_np min_radius max_radius max_attempts output_path).
Local Abbreviation body :=
  (pack width height img_np min_radius max_radius max_attempts output_path).
Local Abbreviation both :=
  (placement width height img_np min_radius max_radius max_attempts).

Lemma run_with_target d t :
  target_circles width height min_radius max_radius d = Ok t ->
  run d = body t.
Proof.
  intros H. unfold non_overlapping_circle_packed_image, bind, lift.
  rewrite H. reflexivity.
Qed.

Lemma run_target_raises d e g :
  target_circles width height min_radius max_radius d = Raised e ->
  run d g = Raised e.
Proof.
  intros H. unfold non_overlapping_circle_packed_image, bind, lift.
  rewrite H. reflexivity.
Qed.

Lemma run_Ok_inv d g o g' :
  run d g = Ok (o, g') ->
  exists t,
    target_circles width height min_radius max_radius d = Ok t
    /\ body t g = Ok (o, g').
Proof.
  unfold non_overlapping_circle_packed_image, bind, lift.
  destruct (target_circles width height min_radius max_radius d) as [t | e |];
    try discriminate.
  intros H. exists t. split; [reflexivity | exact H].
Qed.

Lemma compute_stats_Ok_inv placed s :
  compute_stats placed = Ok s ->
  placed <> []
  /\ Py.min (map radius_of placed) = Ok (stat_min s)
  /\ Py.max (map radius_of placed) = Ok (stat_max s)
  /\ truediv (Py.sum (map radius_of placed)) (Z.of_nat (length placed))
     = Ok (stat_avg s)
  /\ total_circles s = Z.of_nat (length placed).
Proof.
  unfold compute_stats. rewrite length_map.
  destruct (Py.min (map radius_of placed)) as [mn | e |] eqn:Emin;
    try discriminate.
  destruct (Py.max (map radius_of placed)) as [mx | e |] eqn:Emax;
    try discriminate.
  destruct (truediv _ _) as [avg | e |] eqn:Eavg; try discriminate.
  intros H. injection H as <-. simpl.
  repeat split; try reflexivity.
  intros ->. discriminate.
Qed.

Lemma compute_stats_empty :
  compute_stats [] = Raised (ValueError "min() arg is an empty sequence"%string).
Proof. reflexivity. Qed.

Lemma pack_Ok_inv t g o g' :
  body t g = Ok (o, g') ->
  both t g = Ok (final o, g')
  /\ compute_stats (placed_circles (final o)) = Ok (size_stats o)
  /\ returned o = output_path
  /\ saved_to o = output_path.
Proof.
  unfold pack. intros H.
  apply bind_Ok_inv in H as (st & g1 & Hp & H).
  apply bind_Ok_inv in H as (s & g2 & Hs & H).
  unfold ret in H. injection H as <- <-. simpl.
  unfold lift in Hs. destruct (compute_stats (placed_circles st)) as [s' | e |];
    try discriminate.
  injection Hs as <- <-. auto.
Qed.

Lemma placement_Ok t g st g' :
  both t g = Ok (st, g') ->
  Inv width height st
  /\ 0 <= total_attempts st <= Z.max 0 (t * max_attempts)
  /\ g' = advance (4 * Z.to_nat (total_attempts st) + 3 * Z.to_nat (t / 2)) g.
Proof.
  unfold placement. intros H.
  apply bind_Ok_inv in H as (st1 & g1 & H1 & H2).
  apply phase1_Ok in H1 as (HI1 & _ & k & Hk & Ha & -> & Hb);
    [| apply Inv_initial].
  apply phase2_Ok in H2 as (HI2 & Ha2 & ->); [| exact HI1].
  simpl in Ha. rewrite Ha2, Ha, advance_advance.
  split; [exact HI2 | split; [| f_equal; lia]].
  destruct Hb as [-> | Hb]; lia.
Qed.

Lemma placement_not_OutOfFuel t g : both t g <> OutOfFuel.
Proof.
  unfold placement. apply bind_not_OutOfFuel.
  - apply phase1_enough_fuel. simpl. lia.
  - intros; apply phase2_not_OutOfFuel.
Qed.

Lemma pack_not_OutOfFuel t g : body t g <> OutOfFuel.
Proof.
  unfold pack. apply bind_not_OutOfFuel; [apply placement_not_OutOfFuel |].
  intros st g1 _. apply bind_not_OutOfFuel.
  - unfold lift, compute_stats.
    destruct (map radius_of (placed_circles st)) as [| a l] eqn:E; simpl;
      discriminate.
  - intros; discriminate.
Qed.

Lemma run_not_OutOfFuel d g : run d g <> OutOfFuel.
Proof.
  unfold non_overlapping_circle_packed_image, bind, lift.
  pose proof (target_circles_not_OutOfFuel width height min_radius max_radius d)
    as Ht.
  destruct (target_circles width height min_radius max_radius d) as [t | e |];
    [apply pack_not_OutOfFuel | discriminate | contradiction].
Qed.

(** No circle can be placed when the target is not positive. *)
Lemma placement_nonpositive_target t g :
  t <= 0 -> both t g = Ok (initial, g).
Proof.
  intros H. unfold placement, bind.
  assert (phase1 width height img_np min_radius max_radius max_attempts t
            (Z.to_nat (t * max_attempts)) initial g = Ok (initial, g)) as ->.
  { destruct (Z.to_nat (t * max_attempts)); simpl;
      unfold phase1_continue; simpl;
      (replace (0 <? t) with false by (symmetry; apply Z.ltb_ge; lia));
      reflexivity. }
  replace (Z.to_nat (t / 2)) with O; [reflexivity |].
  assert (t / 2 <= 0) by (apply Z.div_le_upper_bound; lia). lia.
Qed.

End Whole.

(** ** Target counts of the sample configurations *)

Lemma target_60 : target_circles 60 60 3 25 default_density_factor = Ok 8.
Proof. vm_compute. reflexivity. Qed.

Lemma target_40 : target_circles 40 40 3 25 default_density_factor = Ok 3.
Proof. vm_compute. reflexivity. Qed.

Lemma target_10 : target_circles 10 10 3 25 default_density_factor = Ok 0.
Proof. vm_compute. reflexivity. Qed.

Lemma target_20_equal_radii :
  target_circles 20 20 10 10 default_density_factor = Ok 1.
Proof. vm_compute. reflexivity. Qed.

Lemma target_20_inverted_radii :
  target_circles 20 20 10 9 default_density_factor = Ok 2.
Proof. vm_compute. reflexivity. Qed.

Lemma target_100 : target_circles 100 100 5 10 unit_density_factor = Ok 56.
Proof. vm_compute. reflexivity. Qed.

Lemma sample_run_60 (g : RandomState) :
  non_overlapping_circle_packed_image
    60 60 (flat_image 60 60) 3 25 50 "out.jpg" default_density_factor g
  = pack 60 60 (flat_image 60 60) 3 25 50 "out.jpg" 8 g.
Proof. rewrite (run_with_target _ _ _ _ _ _ _ _ _ target_60). reflexivity. Qed.

Lemma candidate_bounds width height st st' :
  candidate width height st st' ->
  Forall (in_bounds width height) (placed_circles st) ->
  Forall (in_bounds width height) (placed_circles st').
Proof.
  intros [Hp _ _ | x y r e Hcan Hp _ _] H; rewrite Hp; [exact H |].
  apply can_place_circle_true in Hcan as [Hin _].
  apply Forall_app. split; [exact H | constructor; [exact Hin | constructor]].
Qed.

(** ** Invariants of the placed set *)

(** C1.  In the placed set a completed run ends with, any two circles at
    different positions have their centers at Euclidean distance at least the
    sum of their radii plus the buffer, which is 2 and so non-negative. *)
Theorem no_overlap_invariant
  width height img_np min_radius max_radius max_attempts output_path
  density_factor g o g' :
  non_overlapping_circle_packed_image
    width height img_np min_radius max_radius max_attempts output_path
    density_factor g = Ok (o, g') ->
  0 <= default_buffer
  /\ no_overlap default_buffer (placed_circles (final o)).
Proof.
  intros H. apply run_Ok_inv in H as (tgt & Htgt & H).
  apply pack_Ok_inv in H as (Hp & _).
  apply placement_Ok in Hp as ([_ Hclear _ _] & _).
  split; [unfold default_buffer; lia |].
  apply pairwise_clear_no_overlap. exact Hclear.
Qed.

Lemma no_overlap_invariant_witness :
  exists o g',
    non_overlapping_circle_packed_image
      60 60 (flat_image 60 60) 3 25 50 "out.jpg"
      default_density_factor sample_rng = Ok (o, g')
    /\ length (placed_circles (final o)) = 8%nat
    /\ no_overlap default_buffer (placed_circles (final o)).
Proof.
  eexists; eexists.
  split; [rewrite sample_run_60; vm_compute; reflexivity |].
  split; [reflexivity |].
  eapply proj2.
  eapply (no_overlap_invariant
           60 60 (flat_image 60 60) 3 25 50 "out.jpg"
           default_density_factor sample_rng).
  rewrite sample_run_60. vm_compute. reflexivity.
Defined.

(** C2.  Every circle of the placed set a completed run ends with satisfies
    r <= x <= width - r and r <= y <= height - r, and one iteration of either
    phase keeps that true of the placed set. *)
Theorem in_bounds_invariant
  width height img_np min_radius max_radius max_attempts output_path :
  (forall density_factor g o g',
     non_overlapping_circle_packed_image
       width height img_np min_radius max_radius max_attempts output_path
       density_factor g = Ok (o, g') ->
     Forall (in_bounds width height) (placed_circles (final o)))
  /\ (forall st g st' g',
        Forall (in_bounds width height) (placed_circles st) ->
        phase1_step width height img_np min_radius max_radius st g = Ok (st', g') ->
        Forall (in_bounds width height) (placed_circles st'))
  /\ (forall st g st' g',
        Forall (in_bounds width height) (placed_circles st) ->
        phase2_step width height img_np min_radius st g = Ok (st', g') ->
        Forall (in_bounds width height) (placed_circles st')).
Proof.
  split; [| split].
  - intros d g o g' H. apply run_Ok_inv in H as (tgt & Htgt & H).
    apply pack_Ok_inv in H as (Hp & _).
    apply placement_Ok in Hp as ([Hb _ _ _] & _). exact Hb.
  - intros st g st' g' Hb H. apply phase1_step_Ok in H as (Hc & _).
    eapply candidate_bounds; eassumption.
  - intros st g st' g' Hb H. apply phase2_step_Ok in H as (Hc & _).
    eapply candidate_bounds; eassumption.
Qed.

Lemma in_bounds_invariant_witness :
  exists o g',
    non_overlapping_circle_packed_image
      60 60 (flat_image 60 60) 3 25 50 "out.jpg"
      default_density_factor sample_rng = Ok (o, g')
    /\ nth_error (placed_circles (final o)) 2 = Some (41, 34, 14)
    /\ Forall (in_bounds 60 60) (placed_circles (final o)).
Proof.
  eexists; eexists.
  split; [rewrite sample_run_60; vm_compute; reflexivity |].
  split; [reflexivity |].
  eapply (proj1 (in_bounds_invariant 60 60 (flat_image 60 60) 3 25 50 "out.jpg")
            default_density_factor sample_rng).
  rewrite sample_run_60. vm_compute. reflexivity.
Defined.

(** ** Termination *)

(** C5.  The run never stops for lack of loop budget: Phase 1 needs at most
    target_circles * max_attempts iterations.  When both phases complete, the
    attempt counter lies between 0 and that product (0 when the product is
    negative), one Phase 1 iteration adds exactly 1 to the counter whether or
    not the candidate is accepted, and the random source has been read 4 times
    per counted attempt plus 3 times for each of exactly target_circles // 2
    Phase 2 candidates. *)
Theorem phases_terminate
  width height img_np min_radius max_radius max_attempts output_path :
  (forall density_factor g,
     non_overlapping_circle_packed_image
       width height img_np min_radius max_radius max_attempts output_path
       density_factor g <> OutOfFuel)
  /\ (forall target g,
        phase1 width height img_np min_radius max_radius max_attempts target
          (Z.to_nat (target * max_attempts)) initial g <> OutOfFuel)
  /\ (forall st g st' g',
        phase1_step width height img_np min_radius max_radius st g = Ok (st', g') ->
        total_attempts st' = total_attempts st + 1)
  /\ (forall target g st g',
        placement width height img_np min_radius max_radius max_attempts target g
        = Ok (st, g') ->
        0 <= total_attempts st <= Z.max 0 (target * max_attempts)
        /\ g' = advance (4 * Z.to_nat (total_attempts st)
                         + 3 * Z.to_nat (target / 2)) g).
Proof.
  split; [| split; [| split]].
  - intros d g. apply run_not_OutOfFuel.
  - intros t g. apply phase1_enough_fuel. simpl. lia.
  - intros st g st' g' H. apply phase1_step_Ok in H as (_ & Ha & _). exact Ha.
  - intros t g st g' H. apply placement_Ok in H as (_ & Hb & Hg). auto.
Qed.

Lemma phases_terminate_witness :
  exists st g',
    placement 60 60 (flat_image 60 60) 3 25 50 8 sample_rng = Ok (st, g')
    /\ total_attempts st = 83
    /\ 0 <= total_attempts st <= Z.max 0 (8 * 50)
    /\ g' = advance (4 * Z.to_nat (total_attempts st) + 3 * Z.to_nat (8 / 2))
              sample_rng.
Proof.
  eexists; eexists.
  split; [vm_compute; reflexivity |].
  split; [reflexivity |].
  apply (proj2 (proj2 (proj2
           (phases_terminate 60 60 (flat_image 60 60) 3 25 50 "out.jpg")))
           8 sample_rng).
  vm_compute. reflexivity.
Defined.

(** ** Statistics and the returned value *)

Lemma fold_left_min_spec l : forall a,
  In (fold_left Z.min l a) (a :: l)
  /\ Forall (fun x => fold_left Z.min l a <= x) (a :: l).
Proof.
  induction l as [| b l IH]; intros a; simpl.
  - split; [left; reflexivity | constructor; [lia | constructor]].
  - destruct (IH (Z.min a b)) as [Hin Hall]. simpl in Hin.
    inversion Hall as [| ? ? Hhd Htl]; subst.
    split.
    + destruct Hin as [Hin | Hin]; [| right; right; exact Hin].
      destruct (Z.min_spec a b) as [[_ E] | [_ E]];
        [left | right; left]; rewrite <- Hin; exact (eq_sym E).
    + constructor; [lia | constructor; [lia | exact Htl]].
Qed.

Lemma fold_left_max_spec l : forall a,
  In (fold_left Z.max l a) (a :: l)
  /\ Forall (fun x => x <= fold_left Z.max l a) (a :: l).
Proof.
  induction l as [| b l IH]; intros a; simpl.
  - split; [left; reflexivity | constructor; [lia | constructor]].
  - destruct (IH (Z.max a b)) as [Hin Hall]. simpl in Hin.
    inversion Hall as [| ? ? Hhd Htl]; subst.
    split.
    + destruct Hin as [Hin | Hin]; [| right; right; exact Hin].
      destruct (Z.max_spec a b) as [[_ E] | [_ E]];
        [right; left | left]; rewrite <- Hin; exact (eq_sym E).
    + constructor; [lia | constructor; [lia | exact Htl]].
Qed.

Lemma min_Ok_inv l m :
  Py.min l = Ok m -> In m l /\ Forall (fun x => m <= x) l.
Proof.
  destruct l as [| a l]; simpl; [discriminate |].
  intros H. injection H as <-. apply fold_left_min_spec.
Qed.

Lemma max_Ok_inv l m :
  Py.max l = Ok m -> In m l /\ Forall (fun x => x <= m) l.
Proof.
  destruct l as [| a l]; simpl; [discriminate |].
  intros H. injection H as <-. apply fold_left_max_spec.
Qed.

Lemma sum_fold_right l : Py.sum l = fold_right Z.add 0 l.
Proof.
  unfold Py.sum.
  assert (forall a, fold_left Z.add l a = a + fold_right Z.add 0 l) as H.
  { induction l as [| b l IH]; intros a; simpl; [lia |]. rewrite IH. lia. }
  rewrite H. lia.
Qed.

Lemma truediv_Ok_inv a b q :
  truediv a b = Ok q -> b <> 0 /\ (q * inject_Z b == inject_Z a)%Q.
Proof.
  unfold truediv. destruct (b =? 0) eqn:E; [discriminate |].
  apply Z.eqb_neq in E. intros H. injection H as <-.
  split; [exact E |].
  rewrite Qmult_comm. apply Qmult_div_r. unfold Qeq, inject_Z; simpl. lia.
Qed.

(** C10.  When both phases complete with an empty placed set, the statistics
    step raises the error of min() on an empty sequence and nothing is
    returned; this is what happens whenever target_circles is not positive;
    and a run that returns has placed at least one circle. *)
Theorem empty_placed_set_raises
  width height img_np min_radius max_radius max_attempts output_path :
  (forall density_factor target g st g1,
     target_circles width height min_radius max_radius density_factor
     = Ok target ->
     placement width height img_np min_radius max_radius max_attempts target g
     = Ok (st, g1) ->
     placed_circles st = [] ->
     non_overlapping_circle_packed_image
       width height img_np min_radius max_radius max_attempts output_path
       density_factor g
     = Raised (ValueError "min() arg is an empty sequence"%string))
  /\ (forall density_factor target g,
        target_circles width height min_radius max_radius density_factor
        = Ok target ->
        target <= 0 ->
        non_overlapping_circle_packed_image
          width height img_np min_radius max_radius max_attempts output_path
          density_factor g
        = Raised (ValueError "min() arg is an empty sequence"%string))
  /\ (forall density_factor g o g',
        non_overlapping_circle_packed_image
          width height img_np min_radius max_radius max_attempts output_path
          density_factor g = Ok (o, g') ->
        placed_circles (final o) <> []
        /\ 1 <= total_circles (size_stats o)).
Proof.
  split; [| split].
  - intros d t g st g1 Htgt Hp Hnil.
    rewrite (run_with_target _ _ _ _ _ _ _ _ _ Htgt).
    unfold pack, bind. rewrite Hp, Hnil. reflexivity.
  - intros d t g Htgt Ht.
    rewrite (run_with_target _ _ _ _ _ _ _ _ _ Htgt).
    unfold pack, bind. rewrite placement_nonpositive_target by exact Ht.
    reflexivity.
  - intros d g o g' H. apply run_Ok_inv in H as (tgt & Htgt & H).
    apply pack_Ok_inv in H as (_ & Hs & _).
    apply compute_stats_Ok_inv in Hs as (Hne & _ & _ & _ & Hn).
    split; [exact Hne |]. rewrite Hn.
    destruct (placed_circles (final o)); [contradiction | simpl; lia].
Qed.

Lemma empty_placed_set_raises_witness :
  target_circles 10 10 3 25 default_density_factor = Ok 0
  /\ 0 <= 0
  /\ non_overlapping_circle_packed_image
       10 10 (flat_image 10 10) 3 25 50 "out.jpg" default_density_factor
       sample_rng
     = Raised (ValueError "min() arg is an empty sequence"%string).
Proof.
  split; [exact target_10 |]. split; [lia |].
  apply (proj1 (proj2
           (empty_placed_set_raises 10 10 (flat_image 10 10) 3 25 50 "out.jpg"))
           default_density_factor 0 sample_rng).
  - exact target_10.
  - lia.
Defined.

(** C9, as the code has it.  A completed call returns the output path and
    nothing else.  The statistics it has computed by then describe the final
    placed set: the count is its length, the minimum and the maximum are radii
    of placed circles bounding all the others, and the average times the count
    is the sum of the radii. *)
Theorem returns_output_path_only
  width height img_np min_radius max_radius max_attempts output_path
  density_factor g o g' :
  non_overlapping_circle_packed_image
    width height img_np min_radius max_radius max_attempts output_path
    density_factor g = Ok (o, g') ->
  let radii := map radius_of (placed_circles (final o)) in
  let s := size_stats o in
  returned o = output_path
  /\ saved_to o = output_path
  /\ total_circles s = Z.of_nat (length (placed_circles (final o)))
  /\ In (stat_min s) radii /\ Forall (fun r => stat_min s <= r) radii
  /\ In (stat_max s) radii /\ Forall (fun r => r <= stat_max s) radii
  /\ (stat_avg s * inject_Z (total_circles s)
      == inject_Z (fold_right Z.add 0%Z radii))%Q.
Proof.
  intros H radii s. apply run_Ok_inv in H as (tgt & Htgt & H).
  apply pack_Ok_inv in H as (_ & Hs & Hr & Hsv).
  apply compute_stats_Ok_inv in Hs as (_ & Hmin & Hmax & Havg & Hn).
  apply min_Ok_inv in Hmin as [Hmin1 Hmin2].
  apply max_Ok_inv in Hmax as [Hmax1 Hmax2].
  apply truediv_Ok_inv in Havg as [_ Havg].
  rewrite sum_fold_right in Havg.
  subst s radii. rewrite Hn. auto 10.
Qed.

Lemma returns_output_path_only_witness :
  exists o g',
    non_overlapping_circle_packed_image
      60 60 (flat_image 60 60) 3 25 50 "out.jpg"
      default_density_factor sample_rng = Ok (o, g')
    /\ returned o = "out.jpg"%string
    /\ size_stats o = mkStats 3 14 (47 # 8) 8.
Proof.
  eexists; eexists.
  split; [rewrite sample_run_60; vm_compute; reflexivity |].
  split; [| reflexivity].
  eapply proj1.
  eapply (returns_output_path_only
            60 60 (flat_image 60 60) 3 25 50 "out.jpg"
            default_density_factor sample_rng).
  rewrite sample_run_60. vm_compute. reflexivity.
Defined.

(** C9, as the specification words it, fails: two completed calls return the same
    value although their statistics differ, so the statistics are not part of
    what the caller receives. *)
Lemma return_value_omits_statistics :
  exists o1 g1 o2 g2,
    non_overlapping_circle_packed_image
      60 60 (flat_image 60 60) 3 25 50 "out.jpg"
      default_density_factor sample_rng = Ok (o1, g1)
    /\ non_overlapping_circle_packed_image
         60 60 (flat_image 60 60) 3 25 50 "out.jpg"
         default_density_factor (const_rng 0)
       = Ok (o2, g2)
    /\ returned o1 = returned o2
    /\ total_circles (size_stats o1) = 8
    /\ total_circles (size_stats o2) = 1
    /\ size_stats o1 <> size_stats o2.
Proof.
  do 4 eexists.
  split; [rewrite sample_run_60; vm_compute; reflexivity |].
  split; [rewrite sample_run_60; vm_compute; reflexivity |].
  repeat split. simpl. discriminate.
Qed.

(** ** The size sampler *)

(** C3.  With 0 < min_radius < max_radius the sampler can still fail: for
    min_radius = 5 and max_radius = 10 the third bucket is (13, 18), its upper
    end is clamped to 10 but its lower end is not, and drawing from the empty
    range 13..10 raises ValueError.  (What does hold: a radius the sampler
    returns lies between min_radius and max_radius,
    [get_varied_radius_Ok_inv], and with min_radius + 18 <= max_radius it
    always returns, [get_varied_radius_total].) *)
Theorem get_varied_radius_empty_bucket :
  0 < 5 < 10
  /\ nth_error (size_ranges 5 10) 2 = Some (13, 18)
  /\ choices (size_ranges 5 10) size_weights (const_rng 60)
     = Ok ((13, 18), advance 1 (const_rng 60))
  /\ get_varied_radius 5 10 (const_rng 60)
     = Raised (ValueError "empty range for randrange()"%string).
Proof. repeat split; reflexivity || lia. Qed.

Lemma get_varied_radius_inverted mn mx g :
  mx < mn ->
  get_varied_radius mn mx g
  = Raised (ValueError "empty range for randrange()"%string).
Proof.
  intros H. unfold get_varied_radius, bind.
  destruct (choices_size_ranges mn mx g) as (c & Hin & ->).
  apply randint_empty. apply size_ranges_lower in Hin. lia.
Qed.

(** ** Degenerate canvases *)

(** C4.  On a 40x40 canvas with the default radii the target is 3; when the
    first radius drawn is 21, so that width < 2r, the center draw
    randint(21, 19) raises ValueError instead of counting a failed attempt.
    On the 10x10 canvas the target is 0, no candidate is drawn at all, and
    the run ends in the ValueError of min() on the empty placed set. *)
Theorem degenerate_canvas_raises :
  get_varied_radius 3 25 (const_rng 95) = Ok (21, advance 2 (const_rng 95))
  /\ non_overlapping_circle_packed_image
       40 40 (flat_image 40 40) 3 25 50 "out.jpg"
       default_density_factor (const_rng 95)
     = Raised (ValueError "empty range for randrange()"%string)
  /\ forall g,
       non_overlapping_circle_packed_image
         10 10 (flat_image 10 10) 3 25 50 "out.jpg" default_density_factor g
       = Raised (ValueError "min() arg is an empty sequence"%string).
Proof.
  split; [reflexivity | split].
  - rewrite (run_with_target _ _ _ _ _ _ _ _ _ target_40). reflexivity.
  - intros g. rewrite (run_with_target _ _ _ _ _ _ _ _ _ target_10).
    unfold pack, bind. rewrite placement_nonpositive_target by lia.
    reflexivity.
Qed.

(** ** Configurations the specification calls invalid *)

(** C7, as the specification words it, fails: with min_radius = max_radius = 10, a
    configuration the specification calls invalid, nothing is rejected; a circle is
    placed and the call returns. *)
Lemma invalid_config_not_rejected :
  10 >= 10
  /\ exists o g',
       non_overlapping_circle_packed_image
         20 20 (flat_image 20 20) 10 10 50 "out.jpg"
         default_density_factor (const_rng 0)
       = Ok (o, g')
       /\ placed_circles (final o) = [(10, 10, 10)]
       /\ returned o = "out.jpg"%string.
Proof.
  split; [lia |]. eexists; eexists.
  split;
    [ rewrite (run_with_target _ _ _ _ _ _ _ _ _ target_20_equal_radii);
      vm_compute; reflexivity
    | split; reflexivity ].
Qed.

(** C7, as the code has it.  Nothing checks the configuration.  With
    min_radius > max_radius the run fails only when Phase 1 is entered
    (target_circles >= 1 and max_attempts >= 1), and then at its first radius
    draw, with the ValueError of an empty integer range. *)
Theorem inverted_radii_fail_at_first_draw
  width height img_np min_radius max_radius max_attempts output_path
  density_factor target g :
  max_radius < min_radius ->
  target_circles width height min_radius max_radius density_factor
  = Ok target ->
  1 <= target ->
  1 <= max_attempts ->
  phase1_step width height img_np min_radius max_radius initial g
  = Raised (ValueError "empty range for randrange()"%string)
  /\ non_overlapping_circle_packed_image
       width height img_np min_radius max_radius max_attempts output_path
       density_factor g
     = Raised (ValueError "empty range for randrange()"%string).
Proof.
  intros Hinv Htgt Ht Hma.
  assert (phase1_step width height img_np min_radius max_radius initial g
          = Raised (ValueError "empty range for randrange()"%string)) as Hstep.
  { unfold phase1_step, bind.
    rewrite get_varied_radius_inverted by exact Hinv. reflexivity. }
  split; [exact Hstep |].
  rewrite (run_with_target _ _ _ _ _ _ _ _ _ Htgt).
  unfold pack, placement, bind.
  destruct (Z.to_nat (target * max_attempts)) as [| fuel] eqn:Ef; [nia |].
  simpl. unfold phase1_continue. simpl.
  replace (0 <? target) with true by (symmetry; apply Z.ltb_lt; lia).
  replace (0 <? target * max_attempts) with true
    by (symmetry; apply Z.ltb_lt; nia).
  simpl. unfold bind. rewrite Hstep. reflexivity.
Qed.

Lemma inverted_radii_fail_at_first_draw_witness :
  9 < 10
  /\ target_circles 20 20 10 9 default_density_factor = Ok 2
  /\ non_overlapping_circle_packed_image
       20 20 (flat_image 20 20) 10 9 50 "out.jpg" default_density_factor
       sample_rng
     = Raised (ValueError "empty range for randrange()"%string).
Proof.
  split; [lia |]. split; [exact target_20_inverted_radii |].
  eapply proj2.
  apply (inverted_radii_fail_at_first_draw
           20 20 (flat_image 20 20) 10 9 50 "out.jpg" default_density_factor
           2 sample_rng).
  - lia.
  - exact target_20_inverted_radii.
  - lia.
  - lia.
Defined.

(** ** The target count, as a formula *)

Lemma PI_above_math_pi : (884279719003555 / 281474976710656 < PI)%R.
Proof.
  pose proof (PI_2_3_7_ineq 9) as [Hlo _].
  unfold sum_f_R0, tg_alt, PI_2_3_7_tg, Ratan_seq in Hlo.
  simpl in Hlo.
  lra.
Qed.

(** A way to evaluate the specification's floor without dividing. *)
Lemma spec_target_circles_eq width height mn mx (d : R) (t : Z) :
  mn + mx <> 0 ->
  (IZR t * (PI * (IZR (mn + mx) * IZR (mn + mx)) / 4) <= IZR (width * height) * d
   < (IZR t + 1) * (PI * (IZR (mn + mx) * IZR (mn + mx)) / 4))%R ->
  spec_target_circles width height mn mx d = t.
Proof.
  intros Hne [Hlo Hhi]. unfold spec_target_circles.
  set (k := IZR (mn + mx)) in *. set (n := IZR (width * height)) in *.
  assert (k <> 0)%R as Hk by (apply not_0_IZR; exact Hne).
  assert (0 < k * k)%R as Hsq.
  { destruct (Rtotal_order k 0) as [Hn | [Hz | Hp]].
    - replace (k * k)%R with ((- k) * (- k))%R by ring.
      apply Rmult_lt_0_compat; lra.
    - contradiction.
    - apply Rmult_lt_0_compat; lra. }
  pose proof PI_bounds as [Hpi _].
  set (a := (PI * (k * k) / 4)%R) in *.
  assert (0 < a)%R as Hpos.
  { unfold a. apply Rmult_lt_0_compat; [| lra].
    apply Rmult_lt_0_compat; lra. }
  assert (n / (PI * (k / 2) ^ 2) * d = n * d / a)%R as ->
    by (unfold a; field; lra).
  symmetry. apply Int_part_spec.
  assert (IZR t <= n * d / a)%R.
  { apply Rmult_le_reg_r with a; [exact Hpos |].
    replace (n * d / a * a)%R with (n * d)%R by (field; lra). exact Hlo. }
  assert (n * d / a < IZR t + 1)%R.
  { apply Rmult_lt_reg_r with a; [exact Hpos |].
    replace (n * d / a * a)%R with (n * d)%R by (field; lra). exact Hhi. }
  lra.
Qed.

Lemma int_truncates (v : float) (t : Z) :
  Py.int v = Ok t ->
  ((0 <= float_value v)%Q ->
   (inject_Z t <= float_value v)%Q /\ (float_value v < inject_Z t + 1)%Q)
  /\ ((float_value v <= 0)%Q ->
      (inject_Z t - 1 < float_value v)%Q /\ (float_value v <= inject_Z t)%Q).
Proof.
  destruct v as [s | s | | s m e]; simpl; try discriminate.
  - intros H. injection H as <-.
    split; intros _; split; unfold Qle, Qlt; simpl; lia.
  - intros H. injection H as <-.
    destruct (0 <=? e) eqn:E.
    + apply Z.leb_le in E. rewrite Z.shiftl_mul_pow2 by exact E.
      split; intros _; split; unfold Qle, Qlt, Qminus, Qplus, inject_Z;
        simpl; lia.
    + apply Z.leb_gt in E. rewrite Z.shiftl_div_pow2 by lia.
      assert (0 < 2 ^ (- e)) as Hd by (apply Z.pow_pos_nonneg; lia).
      set (D := 2 ^ (- e)) in *.
      pose proof (Z.mul_div_le (Zpos m) D Hd) as Hlo.
      pose proof (Z.mul_succ_div_gt (Zpos m) D Hd) as Hhi.
      set (q := Zpos m / D) in *.
      assert (0 <= q) as Hq by (apply Z.div_pos; lia).
      unfold Qle, Qlt, Qminus, Qplus, Qopp, inject_Z. simpl.
      rewrite !Z2Pos.id by exact Hd. fold D.
      destruct s; simpl; split; intros H0; split; nia.
Qed.

(** C6, as the specification words it, fails.  For the density factor
    0.17671458676442586 on a 100x100 canvas with radii 5 and 10 the program
    computes 10 in binary64, while the floor of the exact formula is 9; and
    for the density factor -1.0 int() truncates to -56, while the floor
    is -57. *)
Lemma target_circles_not_floor :
  target_circles 100 100 5 10 boundary_density_factor = Ok 10
  /\ spec_target_circles 100 100 5 10
       (Q2R (float_value boundary_density_factor)) = 9
  /\ target_circles 100 100 5 10 (dyadic (-1) 0) = Ok (-56)
  /\ spec_target_circles 100 100 5 10 (Q2R (float_value (dyadic (-1) 0)))
     = -57.
Proof.
  pose proof PI_above_math_pi as Htight. pose proof PI_bounds as [Hlo Hhi].
  split; [vm_compute; reflexivity |].
  split; [| split; [vm_compute; reflexivity |]].
  - replace (float_value boundary_density_factor)
      with (6366813976825596 # 36028797018963968)%Q
      by (vm_compute; reflexivity).
    apply spec_target_circles_eq; [lia |].
    unfold Q2R. simpl. lra.
  - replace (float_value (dyadic (-1) 0))
      with (-4503599627370496 # 4503599627370496)%Q
      by (vm_compute; reflexivity).
    apply spec_target_circles_eq; [lia |].
    unfold Q2R. simpl. lra.
Qed.

(** C6, as the code has it.  The count the placement runs with is int(),
    the truncation toward zero, of the binary64 value of
    (width * height / avg_circle_area) * density_factor, where
    avg_circle_area is math.pi * ((min_radius + max_radius) / 2) ** 2 and
    every operation rounds to the nearest float.  For 100x100, radii 5 and
    10 and density factor 1.0 it is 56, which is also the floor of the exact
    formula. *)
Theorem target_circles_truncates :
  (forall width height img_np min_radius max_radius max_attempts output_path
          density_factor target,
     target_circles width height min_radius max_radius density_factor
     = Ok target ->
     (exists v,
        target_float width height min_radius max_radius density_factor = Ok v
        /\ ((0 <= float_value v)%Q ->
            (inject_Z target <= float_value v)%Q
            /\ (float_value v < inject_Z target + 1)%Q)
        /\ ((float_value v <= 0)%Q ->
            (inject_Z target - 1 < float_value v)%Q
            /\ (float_value v <= inject_Z target)%Q))
     /\ non_overlapping_circle_packed_image
          width height img_np min_radius max_radius max_attempts output_path
          density_factor
        = pack width height img_np min_radius max_radius max_attempts
            output_path target)
  /\ target_circles 100 100 5 10 unit_density_factor = Ok 56
  /\ spec_target_circles 100 100 5 10 1 = 56.
Proof.
  split; [| split; [exact target_100 |]].
  - intros width height img_np mn mx ma out d t H.
    split; [| apply run_with_target; exact H].
    unfold target_circles in H.
    apply and_then_Ok_inv in H as (v & Hv & Hint).
    exists v. split; [exact Hv |]. apply int_truncates. exact Hint.
  - pose proof PI_bounds as [Hlo Hhi].
    apply spec_target_circles_eq; [lia |]. simpl. lra.
Qed.

Lemma target_circles_truncates_witness :
  target_circles 100 100 5 10 unit_density_factor = Ok 56
  /\ exists v,
       target_float 100 100 5 10 unit_density_factor = Ok v
       /\ ((0 <= float_value v)%Q ->
           (inject_Z 56 <= float_value v)%Q
           /\ (float_value v < inject_Z 56 + 1)%Q)
       /\ ((float_value v <= 0)%Q ->
           (inject_Z 56 - 1 < float_value v)%Q
           /\ (float_value v <= inject_Z 56)%Q).
Proof.
  split; [exact target_100 |].
  apply (proj1 (proj1 target_circles_truncates
                  100 100 (flat_image 100 100) 5 10 50 "out.jpg"%string
                  unit_density_factor 56 target_100)).
Defined.

(** ** The color sampler *)

Lemma skipn_nth {A} (d : A) : forall (l : list A) (s : nat),
  (s < length l)%nat -> skipn s l = nth s l d :: skipn (S s) l.
Proof.
  induction l as [| a l IH]; intros s Hs; simpl in Hs; [lia |].
  destruct s as [| s]; [reflexivity |].
  simpl. apply IH. lia.
Qed.

Lemma firstn_skipn_seq {A} (d : A) (l : list A) : forall (k s : nat),
  (s + k <= length l)%nat ->
  firstn k (skipn s l) = map (fun j => nth j l d) (seq s k).
Proof.
  induction k as [| k IH]; intros s Hs; [reflexivity |].
  rewrite (skipn_nth d) by lia. rewrite firstn_cons. cbn [seq map].
  f_equal. apply IH. lia.
Qed.

(** A slice with non-negative bounds, the upper one within the list, is the
    list of the elements at the indices in between. *)
Lemma slice_span {A} (d : A) (l : list A) (a b : Z) :
  0 <= a -> 0 <= b <= Z.of_nat (length l) ->
  slice l a b = map (fun j => nth j l d) (span a b).
Proof.
  intros Ha [Hb Hbn]. unfold slice, slice_index, span.
  replace (a <? 0) with false by (symmetry; apply Z.ltb_ge; lia).
  replace (b <? 0) with false by (symmetry; apply Z.ltb_ge; lia).
  destruct (Z_le_gt_dec a b) as [Hab | Hab].
  - rewrite !Z.min_l by lia. apply firstn_skipn_seq. lia.
  - replace (Z.to_nat (b - a)) with O by lia.
    replace (Z.to_nat (Z.min b (Z.of_nat (length l))
                       - Z.min a (Z.of_nat (length l)))) with O by lia.
    reflexivity.
Qed.

Lemma span_bound a b i : 0 <= a -> In i (span a b) -> (i < Z.to_nat b)%nat.
Proof. intros Ha. unfold span. rewrite in_seq. lia. Qed.

Lemma crop_box_pixels width height img y_min y_max x_min x_max :
  rectangular width height img ->
  0 <= y_min -> 0 <= y_max <= height ->
  0 <= x_min -> x_max <= width -> (0 <= width -> 0 <= x_max) ->
  concat (crop img y_min y_max x_min x_max)
  = box_pixels img y_min y_max x_min x_max.
Proof.
  intros [Hh Hrows] Hy0 Hy1 Hx0 Hx1 Hx1'.
  unfold crop, box_pixels.
  rewrite (slice_span [] img y_min y_max) by lia.
  rewrite map_map, flat_map_concat_map. f_equal.
  apply map_ext_in. intros i Hi. apply span_bound in Hi; [| exact Hy0].
  assert (In (nth i img []) img) as Hin by (apply nth_In; lia).
  rewrite Forall_forall in Hrows. apply Hrows in Hin.
  unfold pixel_at. apply slice_span; lia.
Qed.

Lemma box_pixels_empty img y_min y_max x_min x_max :
  x_max <= x_min \/ y_max <= y_min ->
  box_pixels img y_min y_max x_min x_max = [].
Proof.
  unfold box_pixels. intros [H | H].
  - replace (span x_min x_max) with (@nil nat)
      by (unfold span; replace (Z.to_nat (x_max - x_min)) with O by lia;
          reflexivity).
    induction (span y_min y_max) as [| i l IH]; [reflexivity | exact IH].
  - unfold span at 2. replace (Z.to_nat (y_max - y_min)) with O by lia.
    reflexivity.
Qed.

(** Why the theorem below asks for [0 <= x + r]: a negative upper bound of a
    slice counts from the end of the row, so a box wholly left of the canvas
    is averaged over columns it does not cover. *)
Lemma get_avg_color_wraps_left_of_canvas :
  get_avg_color 4 3 sample_image (-3) 1 1 = (25, 50, 75).
Proof. reflexivity. Qed.

(** C8, as the specification words it, fails on its own example: a radius of 10 on a
    4x3 image, around a center on the canvas, clips to the whole canvas; the
    region is not empty and the result is the mean of all twelve pixels, not
    gray. *)
Lemma large_radius_is_not_gray :
  10 >= 4 /\ 10 >= 3
  /\ length (box_pixels sample_image (Z.max 0 (1 - 10)) (Z.min 3 (1 + 10))
                        (Z.max 0 (1 - 10)) (Z.min 4 (1 + 10))) = 12%nat
  /\ get_avg_color 4 3 sample_image 1 1 10 = (55, 110, 153)
  /\ get_avg_color 4 3 sample_image 1 1 10 <> (128, 128, 128).
Proof. repeat split; try reflexivity; try lia. discriminate. Qed.

(** C8, as the code has it.  On an image of the stated dimensions, for a
    bounding box that is not wholly left of or above the canvas, the sampler
    returns, channel by channel, the truncated mean over all pixels of the
    bounding box clipped to the canvas, and the gray (128, 128, 128) when that
    clipped box has no pixel, which is the case whenever its column range or
    its row range is empty. *)
Theorem get_avg_color_spec width height img_np x y r :
  rectangular width height img_np ->
  0 <= x + r ->
  0 <= y + r ->
  let pixels :=
    box_pixels img_np (Z.max 0 (y - r)) (Z.min height (y + r))
                      (Z.max 0 (x - r)) (Z.min width (x + r)) in
  (pixels = [] -> get_avg_color width height img_np x y r = (128, 128, 128))
  /\ (pixels <> [] ->
      get_avg_color width height img_np x y r
      = (mean red pixels, mean green pixels, mean blue pixels))
  /\ (Z.min width (x + r) <= Z.max 0 (x - r)
      \/ Z.min height (y + r) <= Z.max 0 (y - r) ->
      pixels = []).
Proof.
  intros Hrect Hx Hy pixels.
  assert (0 <= height) as Hh by (destruct Hrect as [<- _]; lia).
  assert (concat (crop img_np (Z.max 0 (y - r)) (Z.min height (y + r))
                       (Z.max 0 (x - r)) (Z.min width (x + r))) = pixels) as Hc.
  { apply (crop_box_pixels width height); try lia. exact Hrect. }
  unfold get_avg_color. rewrite Hc.
  split; [| split].
  - intros ->. reflexivity.
  - intros Hne.
    destruct pixels as [| p ps] eqn:E; [contradiction |].
    replace (3 * Z.of_nat (length (p :: ps)) =? 0) with false
      by (symmetry; apply Z.eqb_neq; simpl length; lia).
    unfold channel_mean, mean. rewrite !sum_fold_right. reflexivity.
  - intros H. apply box_pixels_empty. exact H.
Qed.

Lemma get_avg_color_spec_witness :
  rectangular 4 3 sample_image
  /\ get_avg_color 4 3 sample_image 1 1 1 = (25, 50, 75)
  /\ get_avg_color 4 3 sample_image 1 1 0 = (128, 128, 128).
Proof.
  assert (rectangular 4 3 sample_image) as Hrect
    by (split; [reflexivity | repeat constructor]).
  split; [exact Hrect |]. split.
  - rewrite (proj1 (proj2 (get_avg_color_spec 4 3 sample_image 1 1 1
                             Hrect ltac:(lia) ltac:(lia)))).
    + reflexivity.
    + discriminate.
  - apply (proj1 (get_avg_color_spec 4 3 sample_image 1 1 0
                    Hrect ltac:(lia) ltac:(lia))).
    reflexivity.
Defined.

(** * Further properties of the nested functions *)

(** ** [circles_overlap] and [can_place_circle] *)

(** X1.  The overlap test does not depend on the order in which the two
    circles are given. *)
Theorem circles_overlap_symmetric x1 y1 r1 x2 y2 r2 buffer :
  circles_overlap x1 y1 r1 x2 y2 r2 buffer
  = circles_overlap x2 y2 r2 x1 y1 r1 buffer.
Proof.
  unfold circles_overlap, dist2.
  replace ((x1 - x2) ^ 2 + (y1 - y2) ^ 2)
    with ((x2 - x1) ^ 2 + (y2 - y1) ^ 2) by ring.
  replace (r2 + r1 + buffer) with (r1 + r2 + buffer) by ring.
  reflexivity.
Qed.

Lemma Forall_clear_of placed x y r :
  Forall (clear (x, y, r)) placed -> clear_of placed x y r = true.
Proof.
  induction 1 as [| [[ex ey] er] rest Hc _ IH]; simpl; [reflexivity |].
  unfold clear, cx, cy, radius_of in Hc. simpl in Hc. rewrite Hc. exact IH.
Qed.

Lemma out_of_bounds_false width height x y r :
  out_of_bounds width height x y r = false <-> in_bounds width height (x, y, r).
Proof.
  unfold out_of_bounds, in_bounds, cx, cy, radius_of. simpl.
  rewrite !orb_false_iff, !Z.ltb_ge, !Z.gtb_ltb, !Z.ltb_ge. lia.
Qed.

(** X2.  [can_place_circle] answers True exactly when the disk lies inside
    the canvas and the overlap test, with the default buffer, fails against
    every circle already placed. *)
Theorem can_place_circle_iff width height placed x y r :
  can_place_circle width height placed x y r = true
  <-> in_bounds width height (x, y, r) /\ Forall (clear (x, y, r)) placed.
Proof.
  split.
  - apply can_place_circle_true.
  - intros [Hb Hc]. unfold can_place_circle.
    apply out_of_bounds_false in Hb. rewrite Hb.
    apply Forall_clear_of. exact Hc.
Qed.

(** X3.  A candidate rejected against a placed list stays rejected however
    many circles are appended to the list. *)
Theorem can_place_circle_rejection_persists width height placed more x y r :
  can_place_circle width height placed x y r = false ->
  can_place_circle width height (placed ++ more) x y r = false.
Proof.
  intros H.
  destruct (can_place_circle width height (placed ++ more) x y r) eqn:E;
    [| reflexivity].
  apply can_place_circle_true in E as [Hb Hc].
  apply Forall_app in Hc as [Hc _].
  assert (can_place_circle width height placed x y r = true) as Ht.
  { unfold can_place_circle. apply out_of_bounds_false in Hb. rewrite Hb.
    apply Forall_clear_of. exact Hc. }
  congruence.
Qed.

Lemma can_place_circle_rejection_persists_witness :
  can_place_circle 60 60 [(10, 10, 5)] 12 12 5 = false
  /\ can_place_circle 60 60 ([(10, 10, 5)] ++ [(40, 40, 5)]) 12 12 5 = false.
Proof.
  split; [reflexivity |].
  apply (can_place_circle_rejection_persists 60 60 [(10, 10, 5)] [(40, 40, 5)]).
  reflexivity.
Defined.

(** X4.  A circle wider or taller than the canvas is rejected at every
    center, whatever has been placed. *)
Theorem can_place_circle_too_large width height placed x y r :
  width < 2 * r \/ height < 2 * r ->
  can_place_circle width height placed x y r = false.
Proof.
  intros H. unfold can_place_circle.
  destruct (out_of_bounds width height x y r) eqn:E; [reflexivity |].
  apply out_of_bounds_false in E.
  unfold in_bounds, cx, cy, radius_of in E. simpl in E. lia.
Qed.

Lemma can_place_circle_too_large_witness :
  10 < 2 * 6 /\ can_place_circle 10 10 [] 5 5 6 = false.
Proof.
  split; [lia |].
  apply (can_place_circle_too_large 10 10 [] 5 5 6). left. lia.
Defined.

(** ** [darken_color] and [get_avg_color] *)

Lemma shr_1_r (r : shr_record) :
  0 <= shr_m r -> shr_r (shr_1 r) = Z.odd (shr_m r).
Proof.
  destruct r as [m rb sb]. simpl. intros H.
  destruct m as [| [p | p |] | p]; simpl; try reflexivity; lia.
Qed.

(** After [p] right shifts the mantissa is the quotient by [2 ^ p] and the
    round bit is the last bit shifted out. *)
Lemma shr_iter_spec (p : positive) (r : shr_record) :
  0 <= shr_m r ->
  shr_m (iter_pos shr_1 p r) = shr_m r / 2 ^ Zpos p
  /\ shr_r (iter_pos shr_1 p r) = Z.odd (shr_m r / 2 ^ (Zpos p - 1)).
Proof.
  intros H. rewrite iter_pos_iter.
  assert (0 <= shr_m (Pos.iter shr_1 r p)
          /\ shr_m (Pos.iter shr_1 r p) = shr_m r / 2 ^ Zpos p
          /\ shr_r (Pos.iter shr_1 r p) = Z.odd (shr_m r / 2 ^ (Zpos p - 1)))
    as (_ & E1 & E2); [| split; assumption].
  apply (Pos.iter_ind _ shr_1 r
           (fun q r' => 0 <= shr_m r'
                        /\ shr_m r' = shr_m r / 2 ^ Zpos q
                        /\ shr_r r' = Z.odd (shr_m r / 2 ^ (Zpos q - 1)))).
  - rewrite shr_1_m, shr_1_r by exact H. rewrite Z.div2_div.
    change (2 ^ 1) with 2. change (2 ^ (1 - 1)) with 1. rewrite Z.div_1_r.
    split; [apply Z.div_pos; lia |]. split; reflexivity.
  - intros q r' (H0 & E1 & E2).
    rewrite shr_1_m, shr_1_r by exact H0. rewrite Z.div2_div, E1.
    split; [apply Z.div_pos; [rewrite <- E1; exact H0 | lia] |].
    split.
    + rewrite Z.div_div by (try apply Z.pow_pos_nonneg; lia).
      rewrite Pos2Z.inj_succ, Z.pow_succ_r by lia.
      f_equal. lia.
    + f_equal. f_equal. f_equal. lia.
Qed.

(** Rounding to nearest moves up only when the round bit is set. *)
Lemma round_nearest_even_cases (r : shr_record) :
  round_nearest_even (shr_m r) (loc_of_shr_record r) = shr_m r
  \/ shr_r r = true
     /\ round_nearest_even (shr_m r) (loc_of_shr_record r) = shr_m r + 1.
Proof.
  destruct r as [m [|] [|]]; simpl; try (left; reflexivity);
    try (right; split; reflexivity).
  destruct (Z.even m); [left | right; split]; reflexivity.
Qed.

(** The first shift of a rounding, on an exact input. *)
Lemma shr_fexp_exact (M : positive) (e : Z) :
  let n := Z.max (Zpos (digits2_pos M) + e - 53) (-1074) - e in
  exists r,
    shr_fexp 53 1024 (Zpos M) e loc_Exact = (r, e + Z.max 0 n)
    /\ shr_m r = Zpos M / 2 ^ Z.max 0 n
    /\ (shr_r r = true -> 0 < n /\ Z.odd (Zpos M / 2 ^ (n - 1)) = true).
Proof.
  intros n. unfold shr_fexp, shr, fexp, emin. simpl Zdigits2.
  change (3 - 1024 - 53) with (-1074). fold n.
  destruct n as [| p | p] eqn:En.
  - eexists. split; [f_equal; simpl; lia |]. simpl.
    rewrite Z.div_1_r. split; [reflexivity | discriminate].
  - destruct (shr_iter_spec p (shr_record_of_loc (Zpos M) loc_Exact))
      as [E1 E2]; [simpl; lia |].
    eexists. split; [f_equal; simpl; lia |].
    replace (Z.max 0 (Zpos p)) with (Zpos p) by lia.
    split; [exact E1 |].
    fold n in E2. intros Hr. split; [lia |].
    simpl shr_m in E2. rewrite <- E2. exact Hr.
  - eexists. split; [f_equal; simpl; lia |]. simpl.
    rewrite Z.div_1_r. split; [reflexivity | discriminate].
Qed.

Lemma digits2_pos_bound (M : positive) (B k : Z) :
  0 <= k -> 0 < B < 2 ^ 53 -> Zpos M <= B * 2 ^ k ->
  Zpos (digits2_pos M) <= 53 + k.
Proof.
  intros Hk HB HM. pose proof (digits2_pos_lower M) as Hlow.
  assert (0 < 2 ^ k) as Hp by (apply Z.pow_pos_nonneg; lia).
  assert (2 ^ (Zpos (digits2_pos M) - 1) < 2 ^ (53 + k)) as Hlt.
  { rewrite Z.pow_add_r by lia. nia. }
  apply Z.pow_lt_mono_r_iff in Hlt; lia.
Qed.

(** Rounding does not cross an integer below [2 ^ 53]: a positive number of
    exponent at most 0 that is at most the integer [B] rounds to a float
    that is at most [B]. *)
Lemma binary_round_aux_le (s : bool) (M : positive) (e B : Z) :
  e <= 0 -> 0 < B < 2 ^ 53 -> Zpos M <= B * 2 ^ (- e) ->
  binary_round_aux 53 1024 s (Zpos M) e loc_Exact = S754_zero s
  \/ exists m' e',
       binary_round_aux 53 1024 s (Zpos M) e loc_Exact = S754_finite s m' e'
       /\ e' <= 0 /\ Zpos m' <= B * 2 ^ (- e').
Proof.
  intros He HB HM. unfold binary_round_aux.
  pose proof (digits2_pos_bound M B (- e) ltac:(lia) HB HM) as Hd.
  destruct (shr_fexp_exact M e) as (r1 & -> & Hm1 & Hr1).
  set (n := Z.max (Zpos (digits2_pos M) + e - 53) (-1074) - e) in *.
  set (e1 := e + Z.max 0 n).
  assert (-1074 <= e1 <= 0) as He1 by (unfold e1, n; lia).
  assert (B * 2 ^ (- e) = B * 2 ^ (- e1) * 2 ^ Z.max 0 n) as Hsplit.
  { rewrite <- Z.mul_assoc, <- Z.pow_add_r by lia. do 2 f_equal.
    unfold e1. lia. }
  assert (0 < 2 ^ Z.max 0 n) as Hp by (apply Z.pow_pos_nonneg; lia).
  assert (0 <= shr_m r1 <= B * 2 ^ (- e1)) as Hb1.
  { rewrite Hm1. split; [apply Z.div_pos; lia |].
    apply Z.div_le_upper_bound; [exact Hp |]. lia. }
  assert (0 <= round_nearest_even (shr_m r1) (loc_of_shr_record r1)
          <= B * 2 ^ (- e1)) as Hb2.
  { destruct (round_nearest_even_cases r1) as [-> | [Hr ->]]; [exact Hb1 |].
    destruct (Hr1 Hr) as [Hn Hodd].
    split; [lia |].
    destruct (Z.eq_dec (shr_m r1) (B * 2 ^ (- e1))) as [E | E]; [| lia].
    exfalso.
    replace (Z.max 0 n) with n in * by lia.
    assert (Zpos M = B * 2 ^ (- e1) * 2 ^ n) as EM.
    { pose proof (Z.mul_div_le (Zpos M) (2 ^ n) Hp) as Hle.
      rewrite <- Hm1, E in Hle. lia. }
    assert (2 ^ n = 2 * 2 ^ (n - 1)) as E2.
    { rewrite <- Z.pow_succ_r by lia. f_equal. lia. }
    rewrite EM, E2 in Hodd.
    replace (B * 2 ^ (- e1) * (2 * 2 ^ (n - 1)))
      with (2 * (B * 2 ^ (- e1)) * 2 ^ (n - 1)) in Hodd by ring.
    rewrite Z.div_mul in Hodd
      by (apply Z.pow_nonzero; lia).
    rewrite Z.odd_mul in Hodd. discriminate Hodd. }
  destruct (round_nearest_even (shr_m r1) (loc_of_shr_record r1))
    as [| p2 | p2]; [| | lia].
  - left. unfold shr_fexp, shr, fexp, emin. simpl Zdigits2.
    change (3 - 1024 - 53) with (-1074).
    destruct (Z.max (0 + e1 - 53) (-1074) - e1) as [| q | q] eqn:Eq;
      try reflexivity; lia.
  - pose proof (digits2_pos_bound p2 B (- e1) ltac:(lia) HB ltac:(lia)) as Hd2.
    destruct (shr_fexp_exact p2 e1) as (r2 & -> & Hm2 & _).
    set (n2 := Z.max (Zpos (digits2_pos p2) + e1 - 53) (-1074) - e1) in *.
    set (e2 := e1 + Z.max 0 n2).
    assert (e2 <= 0) as He2 by (unfold e2, n2; lia).
    assert (B * 2 ^ (- e1) = B * 2 ^ (- e2) * 2 ^ Z.max 0 n2) as Hsplit2.
    { rewrite <- Z.mul_assoc, <- Z.pow_add_r by lia. do 2 f_equal.
      unfold e2. lia. }
    assert (0 < 2 ^ Z.max 0 n2) as Hp2 by (apply Z.pow_pos_nonneg; lia).
    assert (0 <= shr_m r2 <= B * 2 ^ (- e2)) as Hb3.
    { rewrite Hm2. split; [apply Z.div_pos; lia |].
      apply Z.div_le_upper_bound; [exact Hp2 |]. lia. }
    destruct (shr_m r2) as [| m3 | m3]; [left; reflexivity | | lia].
    right. exists m3, e2.
    replace (e2 <=? 1024 - 53) with true by (symmetry; apply Z.leb_le; lia).
    split; [reflexivity |]. split; [exact He2 | apply Hb3].
Qed.

Lemma digits2_pos_upper (m : positive) :
  Zpos m < 2 ^ Zpos (digits2_pos m).
Proof.
  rewrite digits2_pos_size.
  pose proof (Pos.size_gt m) as H.
  assert (Zpos m < Zpos (2 ^ Pos.size m)) as H' by exact H.
  rewrite Pos2Z.inj_pow in H'. exact H'.
Qed.

Lemma iter_xO_pow (m d : positive) :
  Zpos (Pos.iter xO m d) = Zpos m * 2 ^ Zpos d.
Proof.
  apply (Pos.iter_ind _ xO m (fun q r => Zpos r = Zpos m * 2 ^ Zpos q)).
  - rewrite Pos2Z.inj_xO. change (2 ^ 1) with 2. lia.
  - intros q r E. rewrite Pos2Z.inj_xO, E, Pos2Z.inj_succ, Z.pow_succ_r by lia.
    ring.
Qed.

Lemma shl_align_spec (mx : positive) (ex ex' : Z) :
  let '(mz, ez) := shl_align mx ex ex' in
  ez = Z.min ex ex' /\ Zpos mz = Zpos mx * 2 ^ (ex - ez).
Proof.
  unfold shl_align. destruct (ex' - ex) as [| d | d] eqn:E.
  - split; [lia |]. rewrite Z.sub_diag. simpl. lia.
  - split; [lia |]. rewrite Z.sub_diag. simpl. lia.
  - split; [lia |]. rewrite iter_xO_pow. do 2 f_equal. lia.
Qed.

Lemma binary_round_le (M : positive) (e B : Z) :
  e <= 0 -> 0 < B < 2 ^ 53 -> Zpos M <= B * 2 ^ (- e) ->
  float_at_most B (binary_round 53 1024 false M e).
Proof.
  intros He HB HM. unfold binary_round.
  pose proof (shl_align_spec M e (fexp 53 1024 (Zpos (digits2_pos M) + e)))
    as Hal.
  destruct (shl_align M e (fexp 53 1024 (Zpos (digits2_pos M) + e)))
    as [mz ez].
  destruct Hal as [Hez Hmz].
  assert (ez <= e) as Hle by lia.
  assert (Zpos mz <= B * 2 ^ (- ez)) as Hb.
  { rewrite Hmz. replace (- ez) with (- e + (e - ez)) by lia.
    rewrite Z.pow_add_r by lia.
    assert (0 < 2 ^ (e - ez)) by (apply Z.pow_pos_nonneg; lia). nia. }
  destruct (binary_round_aux_le false mz ez B ltac:(lia) HB Hb)
    as [-> | (m' & e' & -> & He' & Hm')]; simpl; auto.
Qed.

Lemma dyadic_le (c : Z) :
  0 <= c < 2 ^ 53 -> float_at_most c (dyadic c 0).
Proof.
  intros Hc. unfold dyadic, binary_normalize.
  destruct c as [| p | p]; [exact I | | lia].
  apply binary_round_le; lia.
Qed.

Lemma fmul_le (B : Z) (x t : float) :
  0 < B < 2 ^ 53 -> float_at_most B x -> float_at_most 1 t ->
  float_at_most B (fmul x t).
Proof.
  intros HB Hx Ht.
  destruct x as [sx | sx | | [|] mx ex]; try contradiction;
    destruct t as [st | st | | [|] mt et]; try contradiction;
    try exact I.
  destruct Hx as [Hex Hmx], Ht as [Het Hmt].
  change (float_at_most B
            (binary_round_aux 53 1024 false (Zpos (mx * mt)) (ex + et)
               loc_Exact)).
  assert (Zpos (mx * mt) <= B * 2 ^ (- (ex + et))) as Hb.
  { replace (- (ex + et)) with (- ex + - et) by lia.
    rewrite Z.pow_add_r, Pos2Z.inj_mul by lia.
    rewrite Z.mul_1_l in Hmt.
    assert (0 < 2 ^ (- et)) by (apply Z.pow_pos_nonneg; lia).
    assert (0 < 2 ^ (- ex)) by (apply Z.pow_pos_nonneg; lia). nia. }
  destruct (binary_round_aux_le false (mx * mt) (ex + et) B ltac:(lia) HB Hb)
    as [-> | (m' & e' & -> & He' & Hm')]; simpl; auto.
Qed.

Lemma int_le (B : Z) (x : float) :
  0 <= B -> float_at_most B x -> exists v, Py.int x = Ok v /\ 0 <= v <= B.
Proof.
  intros HB Hx. destruct x as [s | s | | [|] m e]; try contradiction.
  - exists 0. split; [reflexivity | lia].
  - destruct Hx as [He Hm]. eexists. split; [reflexivity |].
    simpl. rewrite Z.shiftl_div_pow2 by lia.
    assert (0 < 2 ^ (- e)) by (apply Z.pow_pos_nonneg; lia).
    split; [apply Z.div_pos; lia |].
    apply Z.div_le_upper_bound; lia.
Qed.

(** [1 - factor] for a factor between 0 and 1 is between 0 and 1. *)
Lemma fsub_one_le (factor : float) :
  valid_binary 53 1024 factor = true ->
  SFleb (S754_zero false) factor = true ->
  SFleb factor one = true ->
  float_at_most 1 (fsub one factor).
Proof.
  intros Hv H0 H1.
  destruct factor as [s | s | | s mf ef].
  - simpl. split; [lia |]. reflexivity.
  - destruct s; discriminate.
  - discriminate.
  - destruct s; [discriminate |].
    unfold valid_binary, bounded, canonical_mantissa, fexp, emin in Hv.
    apply andb_true_iff in Hv as [Hc _]. apply Z.eqb_eq in Hc.
    pose proof (digits2_pos_upper mf) as Hup.
    assert (Zpos (digits2_pos mf) <= 53) as Hd by lia.
    assert (Zpos mf < 2 ^ 53) as Hmf.
    { apply Z.lt_le_trans with (2 ^ Zpos (digits2_pos mf)); [exact Hup |].
      apply Z.pow_le_mono_r; lia. }
    unfold SFleb, SFcompare, one in H1.
    assert (ef < -52 \/ ef = -52 /\ Zpos mf <= 2 ^ 52) as Hcase.
    { destruct (Z.compare_spec ef (-52)) as [E | E | E];
        [right | left; exact E | discriminate].
      split; [exact E |].
      change (2 ^ 52) with (Zpos 4503599627370496).
      rewrite Pos.compare_cont_spec in H1.
      destruct (Pos.compare mf 4503599627370496) eqn:Ec;
        [| | discriminate H1].
      - apply Pos.compare_eq_iff in Ec. rewrite Ec. apply Z.le_refl.
      - apply Pos.compare_lt_iff in Ec. apply Z.lt_le_incl. exact Ec. }
    unfold fsub, SFsub, one.
    pose proof (shl_align_spec 4503599627370496 (-52) (Z.min (-52) ef)) as A1.
    pose proof (shl_align_spec mf ef (Z.min (-52) ef)) as A2.
    destruct (shl_align 4503599627370496 (-52) (Z.min (-52) ef)) as [m1 e1].
    destruct (shl_align mf ef (Z.min (-52) ef)) as [m2 e2].
    destruct A1 as [E1 M1], A2 as [E2 M2]. simpl fst. simpl cond_Zopp.
    set (ez := Z.min (-52) ef) in *.
    assert (Zpos m1 = 2 ^ (- ez)) as M1'.
    { rewrite M1. change (Zpos 4503599627370496) with (2 ^ 52).
      rewrite <- Z.pow_add_r by lia. f_equal. lia. }
    assert (0 < Zpos m2) as Hm2 by lia.
    assert (Zpos m2 <= Zpos m1) as Hle.
    { rewrite M1', M2. destruct Hcase as [Hlt | [He Hm]].
      - replace (ef - e2) with 0 by lia. rewrite Z.mul_1_r.
        apply Z.le_trans with (2 ^ 53); [lia |].
        apply Z.pow_le_mono_r; lia.
      - replace (ef - e2) with 0 by lia. rewrite Z.mul_1_r.
        replace (- ez) with 52 by lia. exact Hm. }
    unfold binary_normalize.
    destruct (Zpos m1 - Zpos m2) as [| D | D] eqn:ED; [exact I | | lia].
    apply binary_round_le; [lia | lia |].
    rewrite Z.mul_1_l. lia.
Qed.

(** For a factor between 0 and 1 and a channel below [2 ^ 53], [int()] does
    not raise and the darkened channel lies between 0 and the channel. *)
Lemma darken_channel_bounds (factor : float) (c : Z) :
  between_0_and_1 factor = true ->
  0 <= c < 2 ^ 53 ->
  0 <= darken_channel factor c <= c
  /\ Py.int (darkened factor c) = Ok (darken_channel factor c).
Proof.
  intros Hf Hc. unfold between_0_and_1 in Hf.
  apply andb_true_iff in Hf as [Hf H1].
  apply andb_true_iff in Hf as [Hv H0].
  pose proof (fsub_one_le factor Hv H0 H1) as Ht.
  pose proof (dyadic_le c Hc) as Hx.
  unfold darken_channel, darkened.
  destruct (Z.eq_dec c 0) as [-> | Hnz].
  - assert (fmul (dyadic 0 0) (fsub one factor) = S754_zero false
            \/ fmul (dyadic 0 0) (fsub one factor) = S754_zero true) as E.
    { destruct (fsub one factor) as [[|] | s | | [|] m e];
        try contradiction; simpl; auto. }
    destruct E as [-> | ->]; simpl; split; (lia || reflexivity).
  - pose proof (fmul_le c _ _ ltac:(lia) Hx Ht) as Hp.
    destruct (int_le c _ ltac:(lia) Hp) as (v & -> & Hv0).
    split; [lia |]. f_equal. lia.
Qed.

(** X5.  For a darkening factor between 0 and 1 and channels that a float
    holds exactly, every channel of the result is non-negative and no larger
    than the channel it comes from, and [int()] raises on none of the three
    products; in particular a byte-valued color stays byte-valued. *)
Theorem darken_color_no_brighter (c : color) (factor : float) :
  between_0_and_1 factor = true ->
  0 <= red c < 2 ^ 53 -> 0 <= green c < 2 ^ 53 -> 0 <= blue c < 2 ^ 53 ->
  no_brighter (darken_color c factor) c
  /\ 0 <= red (darken_color c factor)
  /\ 0 <= green (darken_color c factor)
  /\ 0 <= blue (darken_color c factor)
  /\ (byte_color c -> byte_color (darken_color c factor))
  /\ Py.int (darkened factor (red c)) = Ok (red (darken_color c factor))
  /\ Py.int (darkened factor (green c)) = Ok (green (darken_color c factor))
  /\ Py.int (darkened factor (blue c)) = Ok (blue (darken_color c factor)).
Proof.
  intros Hf Hr Hg Hb.
  pose proof (darken_channel_bounds factor (red c) Hf Hr) as [H1 I1].
  pose proof (darken_channel_bounds factor (green c) Hf Hg) as [H2 I2].
  pose proof (darken_channel_bounds factor (blue c) Hf Hb) as [H3 I3].
  unfold no_brighter, byte_color, darken_color, red, green, blue in *.
  simpl. repeat split; try assumption; lia.
Qed.

Lemma darken_color_no_brighter_witness :
  between_0_and_1 float_0_4 = true
  /\ darken_color (255, 128, 7) float_0_4 = (153, 76, 4)
  /\ darken_color (90, 170, 180) float_0_3 = (62, 118, 125)
  /\ no_brighter (darken_color (255, 128, 7) float_0_4) (255, 128, 7).
Proof.
  assert (between_0_and_1 float_0_4 = true) as Hf by reflexivity.
  split; [exact Hf |]. split; [reflexivity |]. split; [reflexivity |].
  apply (darken_color_no_brighter (255, 128, 7) float_0_4 Hf);
    unfold red, green, blue; simpl; lia.
Defined.

Lemma slice_incl {A} (l : list A) (a b : Z) (v : A) :
  In v (slice l a b) -> In v l.
Proof.
  unfold slice. intros H.
  set (lo := Z.to_nat (slice_index (Z.of_nat (length l)) a)) in *.
  set (k := Z.to_nat (slice_index (Z.of_nat (length l)) b
                      - slice_index (Z.of_nat (length l)) a)) in *.
  rewrite <- (firstn_skipn lo l). apply in_or_app. right.
  rewrite <- (firstn_skipn k (skipn lo l)). apply in_or_app. left. exact H.
Qed.

Lemma crop_pixels_from_image img y_min y_max x_min x_max p :
  In p (concat (crop img y_min y_max x_min x_max)) ->
  exists row, In row img /\ In p row.
Proof.
  unfold crop. rewrite in_concat. intros (cut & Hcut & Hp).
  apply in_map_iff in Hcut as (row & <- & Hrow).
  exists row. split; [eapply slice_incl; exact Hrow | eapply slice_incl; exact Hp].
Qed.

Lemma fold_right_add_bounds (ch : color -> Z) (pixels : list color) (lo hi : Z) :
  Forall (fun p => lo <= ch p <= hi) pixels ->
  lo * Z.of_nat (length pixels)
  <= fold_right Z.add 0 (map ch pixels)
  <= hi * Z.of_nat (length pixels).
Proof.
  induction 1 as [| p ps Hp _ IH]; simpl; [lia |].
  rewrite Zpos_P_of_succ_nat. lia.
Qed.

Lemma channel_mean_bounds (ch : color -> Z) (pixels : list color) (hi : Z) :
  pixels <> [] ->
  Forall (fun p => 0 <= ch p <= hi) pixels ->
  0 <= channel_mean ch pixels <= hi.
Proof.
  intros Hne Hall. unfold channel_mean. rewrite sum_fold_right.
  pose proof (fold_right_add_bounds ch pixels 0 hi Hall) as [Hlo Hhi].
  assert (0 < Z.of_nat (length pixels)) as Hn
    by (destruct pixels; [contradiction | simpl; lia]).
  rewrite Z.quot_div_nonneg by lia.
  split; [apply Z.div_pos; lia | apply Z.div_le_upper_bound; lia].
Qed.

Lemma get_avg_color_bytes width height img_np x y r :
  byte_image img_np ->
  byte_color (get_avg_color width height img_np x y r).
Proof.
  intros Himg. unfold get_avg_color.
  set (pixels := concat (crop img_np _ _ _ _)).
  assert (Forall byte_color pixels) as Hpx.
  { apply Forall_forall. intros p Hp.
    apply crop_pixels_from_image in Hp as (row & Hrow & Hp).
    unfold byte_image in Himg. rewrite Forall_forall in Himg.
    apply Himg in Hrow. rewrite Forall_forall in Hrow. apply Hrow. exact Hp. }
  destruct (3 * Z.of_nat (length pixels) =? 0) eqn:E.
  - unfold byte_color, red, green, blue. simpl. lia.
  - assert (pixels <> []) as Hne.
    { intros Hnil. rewrite Hnil in E. simpl in E. discriminate. }
    unfold byte_color. unfold red at 1, green at 1, blue at 1. simpl.
    repeat split;
      apply (channel_mean_bounds _ pixels 255 Hne);
      (eapply Forall_impl; [| exact Hpx]);
      unfold byte_color; intros p Hb; lia.
Qed.

(** X6.  On an image whose channels are bytes the sampled color is
    byte-valued too, for every center and radius, inside the canvas or not. *)
Theorem get_avg_color_byte_valued width height img_np x y r :
  byte_image img_np ->
  byte_color (get_avg_color width height img_np x y r).
Proof. apply get_avg_color_bytes. Qed.

Lemma get_avg_color_byte_valued_witness :
  byte_image sample_image
  /\ byte_color (get_avg_color 4 3 sample_image 1 1 10).
Proof.
  assert (byte_image sample_image) as Himg.
  { unfold byte_image, sample_image.
    repeat (apply Forall_cons || apply Forall_nil);
      unfold byte_color, red, green, blue; simpl; lia. }
  split; [exact Himg |].
  apply (get_avg_color_byte_valued 4 3 sample_image 1 1 10 Himg).
Defined.

(** ** [get_varied_radius] *)

(** X7.  The sampler returns a radius for every state of the random source
    exactly when max_radius is at least min_radius + 18; below that, some
    bucket is empty and some draws raise. *)
Theorem get_varied_radius_never_fails_iff mn mx :
  (forall g, exists r g', get_varied_radius mn mx g = Ok (r, g'))
  <-> mn + 18 <= mx.
Proof.
  split.
  - intros H. destruct (Z_le_gt_dec (mn + 18) mx) as [Hle | Hgt]; [exact Hle |].
    exfalso. destruct (H (const_rng 95)) as (r & g' & Hr).
    unfold get_varied_radius, bind in Hr.
    assert (choices (size_ranges mn mx) size_weights (const_rng 95)
            = Ok ((mn + 18, mx), advance 1 (const_rng 95))) as Hc
      by reflexivity.
    rewrite Hc in Hr. simpl fst in Hr. simpl snd in Hr.
    rewrite randint_empty in Hr by lia. discriminate.
  - intros H g. destruct (get_varied_radius_total mn mx g H) as (r & Hr).
    exists r, (advance 2 g). exact Hr.
Qed.

Lemma get_varied_radius_never_fails_iff_witness :
  3 + 18 <= 25
  /\ exists r g', get_varied_radius 3 25 sample_rng = Ok (r, g').
Proof.
  split; [lia |].
  apply (proj2 (get_varied_radius_never_fails_iff 3 25)). lia.
Defined.

Lemma can_place_circle_iff_witness :
  in_bounds 60 60 (30, 30, 5)
  /\ Forall (clear (30, 30, 5)) [(10, 10, 5)]
  /\ can_place_circle 60 60 [(10, 10, 5)] 30 30 5 = true.
Proof.
  assert (in_bounds 60 60 (30, 30, 5)) as Hb
    by (unfold in_bounds, cx, cy, radius_of; simpl; lia).
  assert (Forall (clear (30, 30, 5)) [(10, 10, 5)]) as Hc
    by (repeat constructor).
  split; [exact Hb | split; [exact Hc |]].
  apply (proj2 (can_place_circle_iff 60 60 [(10, 10, 5)] 30 30 5)).
  split; assumption.
Defined.

(** ** The two loops, candidate by candidate *)

Section Candidates.

Variables width height : Z.
Variable img_np : list (list color).
Variables min_radius max_radius : Z.
Variable max_attempts : Z.

Local Abbreviation step1 :=
  (phase1_step width height img_np min_radius max_radius).
Local Abbreviation step2 :=
  (phase2_step width height img_np min_radius).
Local Abbreviation loop1 :=
  (phase1 width height img_np min_radius max_radius max_attempts).
Local Abbreviation loop2 :=
  (phase2 width height img_np min_radius).
Local Abbreviation after :=
  (after_candidate width height img_np).

Lemma phase1_step_exact st g st' g' :
  step1 st g = Ok (st', g') ->
  exists x y r,
    min_radius <= r <= max_radius
    /\ r <= x <= width - r /\ r <= y <= height - r
    /\ st' = count_attempt (after float_0_4 5 st x y r).
Proof.
  unfold phase1_step. intros H.
  apply bind_Ok_inv in H as (r & g1 & Hr & H).
  apply bind_Ok_inv in H as (x & g2 & Hx & H).
  apply bind_Ok_inv in H as (y & g3 & Hy & H).
  apply get_varied_radius_Ok_inv in Hr as [Hr _].
  apply randint_Ok_inv in Hx as [Hx _].
  apply randint_Ok_inv in Hy as [Hy _].
  unfold ret in H. injection H as <- _.
  exists x, y, r. repeat split; try lia.
Qed.

Lemma phase2_step_exact st g st' g' :
  step2 st g = Ok (st', g') ->
  exists x y r,
    min_radius <= r <= min_radius + 5
    /\ r <= x <= width - r /\ r <= y <= height - r
    /\ st' = after float_0_3 6 st x y r.
Proof.
  unfold phase2_step. intros H.
  apply bind_Ok_inv in H as (r & g1 & Hr & H).
  apply bind_Ok_inv in H as (x & g2 & Hx & H).
  apply bind_Ok_inv in H as (y & g3 & Hy & H).
  apply randint_Ok_inv in Hr as [Hr _].
  apply randint_Ok_inv in Hx as [Hx _].
  apply randint_Ok_inv in Hy as [Hy _].
  unfold ret in H. injection H as <- _.
  exists x, y, r. repeat split; try lia.
Qed.

(** A property kept by every Phase 1 candidate drawn while the loop condition
    holds is kept by the loop. *)
Lemma phase1_invariant (P : state -> Prop) target :
  (forall st x y r,
     P st -> phase1_continue max_attempts target st = true ->
     min_radius <= r <= max_radius ->
     r <= x <= width - r -> r <= y <= height - r ->
     P (count_attempt (after float_0_4 5 st x y r))) ->
  forall fuel st g st' g',
    P st -> loop1 target fuel st g = Ok (st', g') -> P st'.
Proof.
  intros Hstep. induction fuel as [| fuel IH]; intros st g st' g' HP H;
    simpl in H;
    destruct (phase1_continue max_attempts target st) eqn:E;
    try discriminate; try (injection H as <- _; exact HP).
  apply bind_Ok_inv in H as (st1 & g1 & Hs & H).
  apply phase1_step_exact in Hs as (x & y & r & Hr & Hx & Hy & ->).
  eapply IH; [| exact H]. apply Hstep; assumption.
Qed.


Lemma after_candidate_cases darken width_div st x y r :
  after darken width_div st x y r = st
  \/ can_place_circle width height (placed_circles st) x y r = true
     /\ after darken width_div st x y r
        = place width height img_np darken width_div st x y r.
Proof.
  unfold after_candidate.
  destruct (can_place_circle width height (placed_circles st) x y r);
    [right; split; reflexivity | left; reflexivity].
Qed.

End Candidates.

(** ** What the placed set and the canvas look like after the loops *)

Section Placed.

Variables width height : Z.
Variable img_np : list (list color).
Variables min_radius max_radius : Z.
Variable max_attempts : Z.

Local Abbreviation loop1 :=
  (phase1 width height img_np min_radius max_radius max_attempts).
Local Abbreviation loop2 :=
  (phase2 width height img_np min_radius).
Local Abbreviation both :=
  (placement width height img_np min_radius max_radius max_attempts).
Local Abbreviation after :=
  (after_candidate width height img_np).

Lemma after_candidate_placed darken width_div st x y r :
  placed_circles (after darken width_div st x y r) = placed_circles st
  /\ circles_placed (after darken width_div st x y r) = circles_placed st
  \/ placed_circles (after darken width_div st x y r)
     = placed_circles st ++ [(x, y, r)]
     /\ circles_placed (after darken width_div st x y r) = circles_placed st + 1.
Proof.
  destruct (after_candidate_cases width height img_np darken width_div st x y r)
    as [-> | [_ ->]]; [left | right]; split; reflexivity.
Qed.

Lemma phase1_radii target fuel g st1 g1 :
  loop1 target fuel initial g = Ok (st1, g1) ->
  Forall (radius_between min_radius max_radius) (placed_circles st1).
Proof.
  apply (phase1_invariant width height img_np min_radius max_radius max_attempts
           (fun st => Forall (radius_between min_radius max_radius)
                        (placed_circles st))).
  - intros st x y r HP _ Hr _ _. simpl.
    destruct (after_candidate_placed float_0_4 5 st x y r) as [[-> _] | [-> _]];
      [exact HP |].
    apply Forall_app. split; [exact HP |].
    constructor; [exact Hr | constructor].
  - constructor.
Qed.

Lemma phase1_counters target fuel g st1 g1 :
  loop1 target fuel initial g = Ok (st1, g1) ->
  0 <= circles_placed st1 <= Z.max 0 target
  /\ 0 <= total_attempts st1 <= Z.max 0 (target * max_attempts).
Proof.
  apply (phase1_invariant width height img_np min_radius max_radius max_attempts
           (fun st => 0 <= circles_placed st <= Z.max 0 target
                      /\ 0 <= total_attempts st
                         <= Z.max 0 (target * max_attempts))).
  - intros st x y r [Hc Ha] Hgo _ _ _.
    unfold phase1_continue in Hgo. apply andb_true_iff in Hgo as [H1 H2].
    apply Z.ltb_lt in H1, H2. simpl.
    destruct (after_candidate_placed float_0_4 5 st x y r) as [[_ ->] | [_ ->]];
      assert (total_attempts (after float_0_4 5 st x y r) = total_attempts st)
        as -> by (unfold after_candidate;
                  destruct (can_place_circle _ _ _ _ _ _); reflexivity);
      lia.
  - simpl. lia.
Qed.

Lemma phase2_appends n : forall st g st' g',
  loop2 n st g = Ok (st', g') ->
  exists second,
    placed_circles st' = placed_circles st ++ second
    /\ (length second <= n)%nat
    /\ Forall (radius_between min_radius (min_radius + 5)) second.
Proof.
  induction n as [| n IH]; intros st g st' g' H; simpl in H.
  - injection H as <- _. exists []. rewrite app_nil_r.
    split; [reflexivity | split; [simpl; lia | constructor]].
  - apply bind_Ok_inv in H as (st1 & g1 & Hs & H).
    apply phase2_step_exact in Hs as (x & y & r & Hr & _ & _ & ->).
    apply IH in H as (second & Hp & Hlen & Hall).
    destruct (after_candidate_placed float_0_3 6 st x y r) as [[E _] | [E _]];
      rewrite E in Hp.
    + exists second. split; [exact Hp | split; [lia | exact Hall]].
    + exists ((x, y, r) :: second). rewrite <- app_assoc in Hp.
      split; [exact Hp | split; [simpl; lia |]].
      constructor; [exact Hr | exact Hall].
Qed.

(** X8.  When both phases complete, the placed set is what Phase 1 left,
    with radii between min_radius and max_radius and at most target_circles
    entries, followed by what Phase 2 appended, with radii between min_radius
    and min_radius + 5 and at most target_circles // 2 entries. *)
Theorem placement_radius_ranges target g st g' :
  placement width height img_np min_radius max_radius max_attempts target g = Ok (st, g') ->
  exists st1 g1 second,
    phase1 width height img_np min_radius max_radius max_attempts target
       (Z.to_nat (target * max_attempts)) initial g = Ok (st1, g1)
    /\ placed_circles st = placed_circles st1 ++ second
    /\ Forall (radius_between min_radius max_radius) (placed_circles st1)
    /\ Forall (radius_between min_radius (min_radius + 5)) second
    /\ Z.of_nat (length (placed_circles st1)) <= Z.max 0 target
    /\ (length second <= Z.to_nat (target / 2))%nat.
Proof.
  unfold placement. intros H.
  apply bind_Ok_inv in H as (st1 & g1 & H1 & H2).
  pose proof (phase1_radii _ _ _ _ _ H1) as Hr1.
  pose proof (phase1_counters _ _ _ _ _ H1) as [Hc1 _].
  pose proof (phase1_Ok _ _ _ _ _ _ _ _ _ _ _ _ H1 (Inv_initial width height))
    as ([_ _ Hcnt _] & _).
  apply phase2_appends in H2 as (second & Hp & Hlen & Hr2).
  exists st1, g1, second. rewrite <- Hcnt. repeat split; try assumption; lia.
Qed.

Lemma placement_counts target g st g' :
  both target g = Ok (st, g') ->
  circles_placed st = Z.of_nat (length (placed_circles st))
  /\ 0 <= circles_placed st <= Z.max 0 target + Z.max 0 (target / 2).
Proof.
  intros H.
  pose proof (placement_Ok _ _ _ _ _ _ _ _ _ _ H) as ([_ _ Hcnt _] & _).
  unfold placement in H.
  apply bind_Ok_inv in H as (st1 & g1 & H1 & H2).
  pose proof (phase1_counters _ _ _ _ _ H1) as [Hc1 _].
  pose proof (phase1_Ok _ _ _ _ _ _ _ _ _ _ _ _ H1 (Inv_initial width height))
    as ([_ _ Hcnt1 _] & _).
  apply phase2_appends in H2 as (second & Hp & Hlen & _).
  split; [exact Hcnt |].
  rewrite Hcnt, Hp, length_app. lia.
Qed.

(** X9.  When both phases complete, the counter circles_placed is the length
    of the placed list, and it does not exceed target_circles plus
    target_circles // 2 (each taken as 0 when negative). *)
Theorem placed_count_bounds target g st g' :
  placement width height img_np min_radius max_radius max_attempts target g
  = Ok (st, g') ->
  circles_placed st = Z.of_nat (length (placed_circles st))
  /\ 0 <= circles_placed st <= Z.max 0 target + Z.max 0 (target / 2).
Proof.
  intros H. split.
  - apply (placement_counts target g st g' H).
  - apply (placement_counts target g st g' H).
Qed.

(** X10.  For non-negative target_circles and max_attempts, a completed
    Phase 1 has either placed exactly target_circles circles or used exactly
    target_circles * max_attempts attempts; it never places more than the
    target. *)
Theorem phase1_exit_reason target g st1 g1 :
  0 <= target -> 0 <= max_attempts ->
  phase1 width height img_np min_radius max_radius max_attempts target
    (Z.to_nat (target * max_attempts)) initial g = Ok (st1, g1) ->
  circles_placed st1 <= target
  /\ (circles_placed st1 = target
      \/ total_attempts st1 = target * max_attempts).
Proof.
  intros Ht Hma H.
  pose proof (phase1_counters _ _ _ _ _ H) as [Hc Ha].
  pose proof (phase1_Ok _ _ _ _ _ _ _ _ _ _ _ _ H (Inv_initial width height))
    as (_ & Hstop & _).
  unfold phase1_continue in Hstop. apply andb_false_iff in Hstop.
  rewrite !Z.ltb_ge in Hstop.
  assert (0 <= target * max_attempts) by nia.
  split; [lia |]. destruct Hstop; [left | right]; lia.
Qed.




End Placed.

Lemma placement_radius_ranges_witness :
  exists st g',
    placement 60 60 (flat_image 60 60) 3 25 50 8 sample_rng = Ok (st, g')
    /\ length (placed_circles st) = 8%nat
    /\ exists st1 g1 second,
         phase1 60 60 (flat_image 60 60) 3 25 50 8 (Z.to_nat (8 * 50))
           initial sample_rng = Ok (st1, g1)
         /\ placed_circles st = placed_circles st1 ++ second
         /\ Forall (radius_between 3 25) (placed_circles st1)
         /\ Forall (radius_between 3 (3 + 5)) second
         /\ Z.of_nat (length (placed_circles st1)) <= Z.max 0 8
         /\ (length second <= Z.to_nat (8 / 2))%nat.
Proof.
  eexists; eexists.
  split; [vm_compute; reflexivity |]. split; [reflexivity |].
  eapply (placement_radius_ranges 60 60 (flat_image 60 60) 3 25 50 8 sample_rng).
  vm_compute. reflexivity.
Defined.

Lemma placed_count_bounds_witness :
  exists st g',
    placement 60 60 (flat_image 60 60) 3 25 50 8 sample_rng = Ok (st, g')
    /\ circles_placed st = 8
    /\ circles_placed st = Z.of_nat (length (placed_circles st))
    /\ 0 <= circles_placed st <= Z.max 0 8 + Z.max 0 (8 / 2).
Proof.
  eexists; eexists.
  split; [vm_compute; reflexivity |]. split; [reflexivity |].
  eapply (placed_count_bounds 60 60 (flat_image 60 60) 3 25 50 8 sample_rng).
  vm_compute. reflexivity.
Defined.

Lemma phase1_exit_reason_witness :
  exists st1 g1,
    phase1 60 60 (flat_image 60 60) 3 25 50 8 (Z.to_nat (8 * 50))
      initial (const_rng 0) = Ok (st1, g1)
    /\ circles_placed st1 = 1
    /\ total_attempts st1 = 400
    /\ circles_placed st1 <= 8
    /\ (circles_placed st1 = 8 \/ total_attempts st1 = 8 * 50).
Proof.
  eexists; eexists.
  split; [vm_compute; reflexivity |].
  split; [reflexivity |]. split; [reflexivity |].
  eapply (phase1_exit_reason 60 60 (flat_image 60 60) 3 25 50 8 (const_rng 0));
    [lia | lia |].
  vm_compute. reflexivity.
Defined.



(** ** Completed calls *)

Lemma placed_radius_in_range
  width height img_np min_radius max_radius max_attempts target g st g' c :
  placement width height img_np min_radius max_radius max_attempts target g
  = Ok (st, g') ->
  In c (placed_circles st) ->
  min_radius <= radius_of c <= Z.max max_radius (min_radius + 5).
Proof.
  intros H Hin. unfold placement in H.
  apply bind_Ok_inv in H as (st1 & g1 & H1 & H2).
  apply phase1_radii in H1.
  apply phase2_appends in H2 as (second & Hp & _ & H2).
  rewrite Hp in Hin. apply in_app_or in Hin as [Hin | Hin].
  - rewrite Forall_forall in H1. apply H1 in Hin.
    unfold radius_between in Hin. lia.
  - rewrite Forall_forall in H2. apply H2 in Hin.
    unfold radius_between in Hin. lia.
Qed.

(** X12.  The statistics of a completed call stay within the configuration:
    min_radius <= min <= max <= max(max_radius, min_radius + 5), and the
    total is at least 1 and at most target_circles + target_circles // 2,
    for the target the call computed. *)
Theorem statistics_within_configuration
  width height img_np min_radius max_radius max_attempts output_path
  density_factor g o g' :
  non_overlapping_circle_packed_image
    width height img_np min_radius max_radius max_attempts output_path
    density_factor g = Ok (o, g') ->
  exists target,
    target_circles width height min_radius max_radius density_factor
    = Ok target
    /\ min_radius <= stat_min (size_stats o)
    /\ stat_min (size_stats o) <= stat_max (size_stats o)
    /\ stat_max (size_stats o) <= Z.max max_radius (min_radius + 5)
    /\ 1 <= total_circles (size_stats o)
         <= Z.max 0 target + Z.max 0 (target / 2).
Proof.
  intros H. apply run_Ok_inv in H as (t & Htgt & H).
  exists t. split; [exact Htgt |].
  set (s := size_stats o).
  apply pack_Ok_inv in H as (Hp & Hs & _).
  apply compute_stats_Ok_inv in Hs as (Hne & Hmin & Hmax & _ & Hn).
  apply min_Ok_inv in Hmin as [Hmin1 Hmin2].
  apply max_Ok_inv in Hmax as [Hmax1 Hmax2].
  fold s in Hmin1, Hmin2, Hmax1, Hmax2, Hn.
  pose proof (placement_counts _ _ _ _ _ _ _ _ _ _ Hp) as [Hc Hb].
  assert (forall m, In m (map radius_of (placed_circles (final o))) ->
                    min_radius <= m <= Z.max max_radius (min_radius + 5))
    as Hrange.
  { intros m Hm. apply in_map_iff in Hm as (c & <- & Hc').
    eapply placed_radius_in_range; eassumption. }
  rewrite Forall_forall in Hmin2.
  split; [apply Hrange; exact Hmin1 |].
  split; [apply Hmin2; exact Hmax1 |].
  split; [apply Hrange; exact Hmax1 |].
  rewrite Hn, <- Hc.
  split; [| lia].
  rewrite Hc. destruct (placed_circles (final o)); [contradiction | simpl; lia].
Qed.

Lemma statistics_within_configuration_witness :
  exists o g',
    non_overlapping_circle_packed_image
      60 60 (flat_image 60 60) 3 25 50 "out.jpg" default_density_factor
      sample_rng = Ok (o, g')
    /\ exists target,
         target_circles 60 60 3 25 default_density_factor = Ok target
         /\ 3 <= stat_min (size_stats o)
         /\ stat_min (size_stats o) <= stat_max (size_stats o)
         /\ stat_max (size_stats o) <= Z.max 25 (3 + 5)
         /\ 1 <= total_circles (size_stats o)
              <= Z.max 0 target + Z.max 0 (target / 2).
Proof.
  eexists; eexists.
  split; [rewrite sample_run_60; vm_compute; reflexivity |].
  eapply (statistics_within_configuration
            60 60 (flat_image 60 60) 3 25 50 "out.jpg" default_density_factor
            sample_rng).
  rewrite sample_run_60. vm_compute. reflexivity.
Defined.

(** X13.  With a non-negative min_radius, no two circles of the placed set
    of a completed call share a center; in particular no circle is placed
    twice. *)
Theorem distinct_centers
  width height img_np min_radius max_radius max_attempts output_path
  density_factor g o g' :
  0 <= min_radius ->
  non_overlapping_circle_packed_image
    width height img_np min_radius max_radius max_attempts output_path
    density_factor g = Ok (o, g') ->
  forall i j c1 c2,
    i <> j ->
    nth_error (placed_circles (final o)) i = Some c1 ->
    nth_error (placed_circles (final o)) j = Some c2 ->
    (cx c1, cy c1) <> (cx c2, cy c2).
Proof.
  intros Hmn H i j c1 c2 Hij H1 H2 Heq.
  apply run_Ok_inv in H as (tgt & Htgt & H). apply pack_Ok_inv in H as (Hp & _).
  pose proof (placement_Ok _ _ _ _ _ _ _ _ _ _ Hp) as ([_ Hclear _ _] & _).
  pose proof (placed_radius_in_range _ _ _ _ _ _ _ _ _ _ c1 Hp
                (nth_error_In _ _ H1)) as Hr1.
  pose proof (placed_radius_in_range _ _ _ _ _ _ _ _ _ _ c2 Hp
                (nth_error_In _ _ H2)) as Hr2.
  specialize (Hclear i j c1 c2 Hij H1 H2).
  unfold clear, circles_overlap, dist2, default_buffer in Hclear.
  injection Heq as Hx Hy. rewrite Hx, Hy in Hclear.
  rewrite !Z.sub_diag in Hclear. simpl (0 ^ 2 + 0 ^ 2) in Hclear.
  apply andb_false_iff in Hclear. rewrite !Z.ltb_ge in Hclear. nia.
Qed.

Lemma distinct_centers_witness :
  0 <= 3
  /\ exists o g',
       non_overlapping_circle_packed_image
         60 60 (flat_image 60 60) 3 25 50 "out.jpg"
         default_density_factor sample_rng
       = Ok (o, g')
       /\ (cx (12, 26, 5), cy (12, 26, 5)) <> (cx (18, 40, 6), cy (18, 40, 6)).
Proof.
  split; [lia |]. eexists; eexists.
  split; [rewrite sample_run_60; vm_compute; reflexivity |].
  eapply (distinct_centers
            60 60 (flat_image 60 60) 3 25 50 "out.jpg"
            default_density_factor sample_rng)
    with (i := 0%nat) (j := 1%nat).
  - lia.
  - rewrite sample_run_60. vm_compute. reflexivity.
  - discriminate.
  - reflexivity.
  - reflexivity.
Defined.

(** ** How a call can fail, and when it cannot *)

Lemma bind_Raised_inv {A B} (m : M A) (k : A -> M B) g e :
  bind m k g = Raised e ->
  m g = Raised e \/ exists a g1, m g = Ok (a, g1) /\ k a g1 = Raised e.
Proof.
  unfold bind. destruct (m g) as [[a g1] | e' |]; try discriminate.
  - intros H. right. exists a, g1. split; [reflexivity | exact H].
  - intros H. left. injection H as <-. reflexivity.
Qed.

Lemma randint_Raised_inv a b g e :
  randint a b g = Raised e ->
  e = ValueError "empty range for randrange()"%string /\ b < a.
Proof.
  unfold randint. destruct (b <? a) eqn:E.
  - unfold raise. intros H. injection H as <-.
    apply Z.ltb_lt in E. split; [reflexivity | exact E].
  - unfold bind, next_raw, ret. discriminate.
Qed.

Section Failures.

Variables width height : Z.
Variable img_np : list (list color).
Variables min_radius max_radius : Z.
Variable max_attempts : Z.
Variable output_path : string.

Local Abbreviation step1 :=
  (phase1_step width height img_np min_radius max_radius).
Local Abbreviation step2 :=
  (phase2_step width height img_np min_radius).
Local Abbreviation loop1 :=
  (phase1 width height img_np min_radius max_radius max_attempts).
Local Abbreviation loop2 :=
  (phase2 width height img_np min_radius).
Local Abbreviation both :=
  (placement width height img_np min_radius max_radius max_attempts).
Local Abbreviation body :=
  (pack width height img_np min_radius max_radius max_attempts output_path).
Local Abbreviation run :=
  (non_overlapping_circle_packed_image
     width height img_np min_radius max_radius max_attempts output_path).
Local Abbreviation empty_range :=
  (ValueError "empty range for randrange()"%string).
Local Abbreviation empty_min :=
  (ValueError "min() arg is an empty sequence"%string).

Lemma get_varied_radius_Raised_inv g e :
  get_varied_radius min_radius max_radius g = Raised e -> e = empty_range.
Proof.
  unfold get_varied_radius, bind.
  destruct (choices_size_ranges min_radius max_radius g) as (c & _ & ->).
  intros H. apply randint_Raised_inv in H as [-> _]. reflexivity.
Qed.

Lemma phase1_step_Raised_inv st g e :
  step1 st g = Raised e -> e = empty_range.
Proof.
  unfold phase1_step. intros H.
  apply bind_Raised_inv in H as [H | (r & g1 & _ & H)];
    [apply get_varied_radius_Raised_inv in H; exact H |].
  apply bind_Raised_inv in H as [H | (x & g2 & _ & H)];
    [apply randint_Raised_inv in H as [-> _]; reflexivity |].
  apply bind_Raised_inv in H as [H | (y & g3 & _ & H)];
    [apply randint_Raised_inv in H as [-> _]; reflexivity |].
  discriminate.
Qed.

Lemma phase2_step_Raised_inv st g e :
  step2 st g = Raised e -> e = empty_range.
Proof.
  unfold phase2_step. intros H.
  apply bind_Raised_inv in H as [H | (r & g1 & _ & H)];
    [apply randint_Raised_inv in H as [-> _]; reflexivity |].
  apply bind_Raised_inv in H as [H | (x & g2 & _ & H)];
    [apply randint_Raised_inv in H as [-> _]; reflexivity |].
  apply bind_Raised_inv in H as [H | (y & g3 & _ & H)];
    [apply randint_Raised_inv in H as [-> _]; reflexivity |].
  discriminate.
Qed.

Lemma phase1_Raised_inv target fuel : forall st g e,
  loop1 target fuel st g = Raised e -> e = empty_range.
Proof.
  induction fuel as [| fuel IH]; intros st g e H; simpl in H;
    destruct (phase1_continue max_attempts target st); try discriminate.
  apply bind_Raised_inv in H as [H | (st1 & g1 & _ & H)].
  - apply phase1_step_Raised_inv in H. exact H.
  - apply IH in H. exact H.
Qed.

Lemma phase2_Raised_inv n : forall st g e,
  loop2 n st g = Raised e -> e = empty_range.
Proof.
  induction n as [| n IH]; intros st g e H; simpl in H; [discriminate |].
  apply bind_Raised_inv in H as [H | (st1 & g1 & _ & H)].
  - apply phase2_step_Raised_inv in H. exact H.
  - apply IH in H. exact H.
Qed.

Lemma placement_Raised_inv target g e :
  both target g = Raised e -> e = empty_range.
Proof.
  unfold placement. intros H.
  apply bind_Raised_inv in H as [H | (st1 & g1 & _ & H)].
  - apply phase1_Raised_inv in H. exact H.
  - apply phase2_Raised_inv in H. exact H.
Qed.

Lemma compute_stats_nonempty placed :
  placed <> [] -> exists s, compute_stats placed = Ok s.
Proof.
  intros Hne. destruct placed as [| c rest]; [contradiction |].
  unfold compute_stats, truediv. cbn [map Py.min Py.max].
  destruct (Z.of_nat (length (radius_of c :: map radius_of rest)) =? 0)
    eqn:E.
  - apply Z.eqb_eq in E. simpl in E. lia.
  - eexists. reflexivity.
Qed.

Lemma pack_Raised_inv target g e :
  body target g = Raised e ->
  e = empty_range
  \/ e = empty_min
     /\ exists st g1, both target g = Ok (st, g1) /\ placed_circles st = [].
Proof.
  unfold pack. intros H.
  apply bind_Raised_inv in H as [H | (st & g1 & Hp & H)].
  - left. apply placement_Raised_inv in H. exact H.
  - right. apply bind_Raised_inv in H as [H | (s & g2 & _ & H)];
      [| discriminate].
    destruct (placed_circles st) as [| c rest] eqn:E.
    + rewrite compute_stats_empty in H. unfold lift in H.
      injection H as <-. split; [reflexivity |].
      exists st, g1. split; [exact Hp | exact E].
    + destruct (compute_stats_nonempty (c :: rest)) as (s & Hs);
        [discriminate |].
      rewrite Hs in H. discriminate.
Qed.

Lemma target_circles_Raised_inv density_factor e :
  target_circles width height min_radius max_radius density_factor = Raised e ->
  target_error e.
Proof.
  unfold target_circles, target_float, avg_circle_area, half, square,
    float_of_int, float_truediv, Py.int, target_error.
  destruct (is_infinite (dyadic (min_radius + max_radius) (-1))); simpl;
    [intros H; injection H as <-; tauto |].
  destruct (is_infinite _ && negb _); simpl;
    [intros H; injection H as <-; tauto |].
  destruct (is_infinite (dyadic (image_area width height) 0)); simpl;
    [intros H; injection H as <-; tauto |].
  destruct (is_zero _); simpl; [intros H; injection H as <-; tauto |].
  destruct (fmul _ density_factor); intros H; try discriminate;
    injection H as <-; tauto.
Qed.

Lemma target_circles_ZeroDivision_inv density_factor msg :
  target_circles width height min_radius max_radius density_factor
  = Raised (ZeroDivisionError msg) ->
  exists a, avg_circle_area min_radius max_radius = Ok a /\ is_zero a = true.
Proof.
  unfold target_circles, target_float, float_of_int, float_truediv, Py.int.
  destruct (avg_circle_area min_radius max_radius) as [a | e |] eqn:Ea; simpl.
  - destruct (is_infinite (dyadic (image_area width height) 0)); simpl;
      [discriminate |].
    destruct (is_zero a) eqn:Ez; simpl.
    + intros _. exists a. split; [reflexivity | exact Ez].
    + destruct (fmul _ density_factor); discriminate.
  - intros H. injection H as ->. exfalso.
    unfold avg_circle_area, half, square in Ea.
    destruct (is_infinite (dyadic (min_radius + max_radius) (-1)));
      simpl in Ea; [discriminate |].
    destruct (is_infinite _ && negb _); simpl in Ea; discriminate.
  - discriminate.
Qed.

(** X14.  With the image opened, a float density factor, and drawing and
    saving taken to succeed (radii are non-negative, so every box handed to
    the drawing library is well formed), a call can end only with the
    exceptions of the target computation (OverflowError from an integer too
    large for a float, from the square or from int() of an infinity,
    ZeroDivisionError, ValueError from int() of a NaN), the ValueError of a
    draw from an empty integer range, or the ValueError of min() on an empty
    placed set.  The weighted bucket choice never raises, no list index goes
    out of range, and the average of the statistics never divides by zero. *)
Theorem raised_errors_catalogue density_factor g e :
  0 <= min_radius ->
  non_overlapping_circle_packed_image
    width height img_np min_radius max_radius max_attempts output_path
    density_factor g = Raised e ->
  expected_error e
  /\ (target_error e
      \/ exists target,
           target_circles width height min_radius max_radius density_factor
           = Ok target
           /\ pack width height img_np min_radius max_radius max_attempts
                output_path target g = Raised e).
Proof.
  intros _. unfold non_overlapping_circle_packed_image, bind, lift.
  destruct (target_circles width height min_radius max_radius density_factor)
    as [t | e' |] eqn:Et; try discriminate.
  - intros H. split; [| right; exists t; split; [reflexivity | exact H]].
    apply pack_Raised_inv in H as [-> | [-> _]];
      unfold expected_error; tauto.
  - intros H. injection H as <-.
    apply target_circles_Raised_inv in Et.
    split; [left; exact Et | left; exact Et].
Qed.

(** X15.  A call that ends in ZeroDivisionError has min_radius and
    max_radius summing to zero; and when they sum to zero and the image area
    converts to a float, the call ends in ZeroDivisionError, raised by the
    division by avg_circle_area.  The average of the statistics never
    divides by zero: min() has raised first on an empty list. *)
Theorem zero_division_iff density_factor g :
  ((exists msg, non_overlapping_circle_packed_image
      width height img_np min_radius max_radius max_attempts output_path
      density_factor g = Raised (ZeroDivisionError msg))
   -> min_radius + max_radius = 0)
  /\ (forall area,
        float_of_int (image_area width height) = Ok area ->
        min_radius + max_radius = 0 ->
        non_overlapping_circle_packed_image
          width height img_np min_radius max_radius max_attempts output_path
          density_factor g
        = Raised (ZeroDivisionError "float division by zero"%string)).
Proof.
  split.
  - intros [msg H].
    unfold non_overlapping_circle_packed_image, bind, lift in H.
    destruct (target_circles width height min_radius max_radius density_factor)
      as [t | e' |] eqn:Et; try discriminate.
    + apply pack_Raised_inv in H as [H | [H _]]; discriminate.
    + injection H as ->.
      apply target_circles_ZeroDivision_inv in Et as (a & Ha & Hz).
      eapply avg_circle_area_zero_inv; eassumption.
  - intros area Harea E. apply run_target_raises.
    unfold target_circles, target_float.
    rewrite (avg_circle_area_zero _ _ E). simpl. rewrite Harea. reflexivity.
Qed.

Hypothesis buckets_fit : min_radius + 18 <= max_radius.
Hypothesis fits_width : 2 * max_radius <= width.
Hypothesis fits_height : 2 * max_radius <= height.







End Failures.

Lemma raised_errors_catalogue_witness :
  0 <= 3
  /\ non_overlapping_circle_packed_image
       40 40 (flat_image 40 40) 3 25 50 "out.jpg" default_density_factor
       (const_rng 95)
     = Raised (ValueError "empty range for randrange()"%string)
  /\ expected_error (ValueError "empty range for randrange()"%string).
Proof.
  assert (non_overlapping_circle_packed_image
            40 40 (flat_image 40 40) 3 25 50 "out.jpg" default_density_factor
            (const_rng 95)
          = Raised (ValueError "empty range for randrange()"%string)) as H
    by (rewrite (run_with_target _ _ _ _ _ _ _ _ _ target_40); reflexivity).
  split; [lia |]. split; [exact H |].
  exact (proj1 (raised_errors_catalogue
                  40 40 (flat_image 40 40) 3 25 50 "out.jpg"
                  default_density_factor (const_rng 95) _ ltac:(lia) H)).
Defined.

Lemma zero_division_iff_witness :
  float_of_int (image_area 60 60) = Ok (dyadic 3600 0)
  /\ -5 + 5 = 0
  /\ non_overlapping_circle_packed_image
       60 60 (flat_image 60 60) (-5) 5 50 "out.jpg" default_density_factor
       sample_rng
     = Raised (ZeroDivisionError "float division by zero"%string).
Proof.
  assert (float_of_int (image_area 60 60) = Ok (dyadic 3600 0)) as Harea
    by reflexivity.
  split; [exact Harea |]. split; [reflexivity |].
  apply (proj2 (zero_division_iff
                  60 60 (flat_image 60 60) (-5) 5 50 "out.jpg"
                  default_density_factor sample_rng) (dyadic 3600 0) Harea).
  reflexivity.
Defined.


(** ** The color sampled for a placed circle *)

Lemma box_pixels_length img y_min y_max x_min x_max :
  length (box_pixels img y_min y_max x_min x_max)
  = (Z.to_nat (y_max - y_min) * Z.to_nat (x_max - x_min))%nat.
Proof.
  unfold box_pixels, span.
  generalize (Z.to_nat y_min) as s. generalize (Z.to_nat (y_max - y_min)) as k.
  induction k as [| k IH]; intros s; [reflexivity |].
  cbn [seq flat_map]. rewrite length_app, length_map, length_seq, IH.
  reflexivity.
Qed.

(** X17.  For a circle of radius at least 1 that lies inside the canvas of a
    rectangular image, which is the only way the program calls the sampler
    under a valid configuration, the sampled region is the whole 2r by 2r
    square around the center, and the color returned is its truncated mean:
    the gray fallback is never taken. *)
Theorem get_avg_color_of_placed_circle width height img_np x y r :
  rectangular width height img_np ->
  in_bounds width height (x, y, r) ->
  1 <= r ->
  let pixels := box_pixels img_np (y - r) (y + r) (x - r) (x + r) in
  Z.of_nat (length pixels) = (2 * r) * (2 * r)
  /\ get_avg_color width height img_np x y r
     = (mean red pixels, mean green pixels, mean blue pixels).
Proof.
  intros Hrect Hb Hr pixels.
  unfold in_bounds, cx, cy, radius_of in Hb. simpl in Hb.
  assert (Z.of_nat (length pixels) = (2 * r) * (2 * r)) as Hlen.
  { unfold pixels. rewrite box_pixels_length. nia. }
  split; [exact Hlen |].
  unfold get_avg_color.
  rewrite (Z.max_r 0 (x - r)), (Z.max_r 0 (y - r)) by lia.
  rewrite (Z.min_r width (x + r)), (Z.min_r height (y + r)) by lia.
  rewrite (crop_box_pixels width height) by (try exact Hrect; lia).
  fold pixels.
  replace (3 * Z.of_nat (length pixels) =? 0) with false
    by (symmetry; apply Z.eqb_neq; nia).
  unfold channel_mean, mean. rewrite !sum_fold_right. reflexivity.
Qed.

Lemma get_avg_color_of_placed_circle_witness :
  rectangular 4 3 sample_image
  /\ in_bounds 4 3 (2, 1, 1)
  /\ get_avg_color 4 3 sample_image 2 1 1 = (35, 70, 105).
Proof.
  assert (rectangular 4 3 sample_image) as Hrect
    by (split; [reflexivity | repeat constructor]).
  assert (in_bounds 4 3 (2, 1, 1)) as Hb
    by (unfold in_bounds, cx, cy, radius_of; simpl; lia).
  split; [exact Hrect | split; [exact Hb |]].
  rewrite (proj2 (get_avg_color_of_placed_circle 4 3 sample_image 2 1 1
                    Hrect Hb ltac:(lia))).
  reflexivity.
Defined.
